(** * Audit Forge: crawl, analyze, score, report

    A shallow embedding of the audit pipeline of the repository: the
    crawler, the analyzer suite, the scorer, the store and the orchestrator
    server/runner.ts, together with the properties of the specification
    that were checked against it.

    The repository holds two generations of the crawler, of the analyzers
    and of the scorer. The orchestrator calls [crawlSite] with an options
    object, [analyzePage] with a page result and [calculatePageScores]; only
    the later generation provides these, and it is the one embedded here. *)

From Stdlib Require Import Ascii QArith Qround.
From stdpp Require Import gmap strings list pretty sorting.

Local Open Scope Z_scope.

(** ** JavaScript numbers and strings *)

Module JS.

(** The arithmetic the scoring code performs on JavaScript numbers.
    [nround] is [Math.round]. The audit-level aggregation is stated
    over any such arithmetic; the page-level one runs on rationals, where
    every intermediate value is a small multiple of one half and hence
    exact in double precision as well. *)
Class Number (num : Type) := {
  ofZ : Z -> num;
  nadd : num -> num -> num;
  nmul : num -> num -> num;
  ndiv : num -> num -> num;
  nround : num -> Z
}.

(** [Math.round]: the nearest integer, ties towards plus infinity. *)
Definition Math_round (x : Q) : Z := Qfloor (x + (1 # 2))%Q.

#[export] Instance Q_Number : Number Q := {
  ofZ := inject_Z;
  nadd := Qplus;
  nmul := Qmult;
  ndiv := Qdiv;
  nround := Math_round
}.

Definition Qgtb (x y : Q) : bool := negb (Qle_bool x y).

(** Truthiness of a number: zero is falsy. *)
Definition truthyQ (x : Q) : bool := negb (Qeq_bool x 0).

(** Truthiness of a string: only the empty string is falsy. *)
Definition truthy (s : string) : bool :=
  match s with EmptyString => false | _ => true end.

(** Truthiness of an optional string property ([undefined] is falsy). *)
Definition truthy_opt (o : option string) : bool :=
  match o with Some s => truthy s | None => false end.

(** [String.prototype.startsWith]. *)
Definition startsWith (s p : string) : bool := String.prefix p s.

(** [String.prototype.includes]. *)
Fixpoint includes (s needle : string) : bool :=
  String.prefix needle s ||
  match s with
  | EmptyString => false
  | String _ rest => includes rest needle
  end.

(** [String.prototype.indexOf], on a string that is known to contain the
    needle ([length s] when it does not). *)
Fixpoint indexOf (s needle : string) : nat :=
  if String.prefix needle s then 0%nat
  else match s with
       | EmptyString => 0%nat
       | String _ rest => S (indexOf rest needle)
       end.

Definition is_space (c : ascii) : bool :=
  let n := nat_of_ascii c in
  (Nat.eqb n 32 || (Nat.leb 9 n && Nat.leb n 13))%bool.

Fixpoint trimStart (s : string) : string :=
  match s with
  | String c rest => if is_space c then trimStart rest else s
  | EmptyString => EmptyString
  end.

Fixpoint trimEnd (s : string) : string :=
  match s with
  | String c rest =>
      match trimEnd rest with
      | EmptyString => if is_space c then EmptyString else String c EmptyString
      | kept => String c kept
      end
  | EmptyString => EmptyString
  end.

(** [String.prototype.trim], on the ASCII white space. *)
Definition trim (s : string) : string := trimEnd (trimStart s).

Definition quote : string := String (ascii_of_nat 34) EmptyString.
Definition newline : string := String (ascii_of_nat 10) EmptyString.

(** [String.prototype.toLowerCase], on the ASCII letters. *)
Definition lower_ascii (c : ascii) : ascii :=
  let n := nat_of_ascii c in
  if (Nat.leb 65 n && Nat.leb n 90)%bool then ascii_of_nat (n + 32) else c.

Fixpoint toLowerCase (s : string) : string :=
  match s with
  | EmptyString => EmptyString
  | String c rest => String (lower_ascii c) (toLowerCase rest)
  end.

End JS.

(** ** The data model (types.ts) *)

Inductive AuditStatus := QUEUED | RUNNING | COMPLETED | FAILED.

Inductive ScoreCategory := seo | performance | accessibility | content | uxDesign.

Inductive Severity := critical | major | minor.

#[export] Instance ScoreCategory_eq_dec : EqDecision ScoreCategory.
Proof. solve_decision. Defined.

#[export] Instance Severity_eq_dec : EqDecision Severity.
Proof. solve_decision. Defined.

#[export] Instance AuditStatus_eq_dec : EqDecision AuditStatus.
Proof. solve_decision. Defined.

Record Scores := mkScores {
  overall : Z;
  seoScore : Z;
  performanceScore_ : Z;
  accessibilityScore : Z;
  contentScore : Z;
  uxDesignScore : Z
}.

Record Issue := mkIssue {
  issueId : string;
  category : ScoreCategory;
  code : string;
  severity : Severity;
  message : string;
  pageUrl : option string
}.

Record PageResult := mkPageResult {
  prUrl : string;
  html : string;
  prStatusCode : Z;
  prDepth : Z;
  internalLinks : list string;
  externalLinks : list string;
  error : option string
}.

Record SeoData := mkSeoData {
  title : string;
  metaDescription : option string;
  h1Text : string;
  wordCount : Z;
  imagesWithoutAlt : Z;
  canonical : option string;
  robots : option string
}.

Record PerformanceData := mkPerformanceData {
  performanceScore : option Z;
  firstContentfulPaintMs : option Q;
  largestContentfulPaintMs : option Q;
  totalBlockingTimeMs : option Q;
  cumulativeLayoutShift : option Q;
  strategy : option string;
  perfError : option string
}.

Record Landmarks := mkLandmarks {
  lmMain : bool; lmNav : bool; lmHeader : bool; lmFooter : bool
}.

Record AccessibilityData := mkAccessibilityData {
  hasLangAttribute : bool;
  landmarks : Landmarks;
  labeledInputs : Z;
  unlabeledInputs : Z
}.

Record ContentStructureData := mkContentStructureData {
  pageType : string;
  internalLinkCount : Z;
  externalLinkCount : Z;
  brokenLinks : list string;
  inboundLinks : Z;
  outboundLinks : Z
}.

Record DesignUxData := mkDesignUxData {
  hasNavigation : bool;
  primaryCtaFound : bool;
  primaryCtaAboveFold : bool;
  fontCount : Z;
  colorCount : Z;
  hasViewportMeta : bool
}.

(** [performanceData] is [PerformanceData | null | undefined]; both absent
    forms are [None] here, the scorer reads them through [?.] alike. *)
Record PageData := mkPageData {
  pageId : string;
  url : string;
  statusCode : Z;
  depth : Z;
  scores : Scores;
  issues : list Issue;
  seoData : option SeoData;
  performanceData : option PerformanceData;
  accessibilityData : option AccessibilityData;
  contentData : option ContentStructureData;
  designUxData : option DesignUxData
}.

Record IssuesSummary := mkIssuesSummary {
  nCritical : Z;
  nMajor : Z;
  nMinor : Z;
  bySeo : Z;
  byPerformance : Z;
  byAccessibility : Z;
  byContent : Z;
  byUxDesign : Z
}.

Record Audit := mkAudit {
  auditId : string;
  auditUrl : string;
  status : AuditStatus;
  createdAt : string;
  completedAt : option string;
  auditScores : Scores;
  issuesSummary : IssuesSummary;
  pages : list PageData;
  reportMarkdown : option string
}.

Definition zeroScores : Scores := mkScores 0 0 0 0 0 0.
Definition zeroSummary : IssuesSummary := mkIssuesSummary 0 0 0 0 0 0 0 0.

(** ** The scorer (the scoring module the orchestrator imports) *)

Module Scoring.
Import JS.

Definition severityPenalty (s : Severity) : Q :=
  match s with
  | critical => 25
  | major => 15
  | minor => 7
  end.

Definition clampScore {num} `{Number num} (score : num) : Z :=
  Z.max 0 (Z.min 100 (nround score)).

Definition scoreCategory (base : Q) (issues : list Issue) (cat : ScoreCategory)
    (extraPenalty : Q) : Z :=
  let totalPenalty :=
    fold_left (fun acc issue => acc + severityPenalty (severity issue))%Q
      (filter (fun issue => category issue = cat) issues) 0%Q in
  clampScore (base - totalPenalty - extraPenalty)%Q.

Definition scorePerformance (performanceData : option PerformanceData)
    (issues : list Issue) : Z :=
  match performanceData ≫= performanceScore with
  | Some score =>
      let penalty :=
        fold_left (fun acc i => acc + severityPenalty (severity i) / 2)%Q
          (filter (fun i => category i = performance) issues) 0%Q in
      clampScore (inject_Z score - penalty)%Q
  | None => scoreCategory 80 issues performance 0
  end.

Definition seoPenalty (seoData : option SeoData) : Q :=
  match seoData with
  | Some d => if negb (wordCount d =? 0) && (wordCount d <? 120) then 5 else 0
  | None => 0
  end.

Definition accessibilityPenalty (accessibilityData : option AccessibilityData) : Q :=
  match accessibilityData with
  | Some d => if negb (unlabeledInputs d =? 0) then 5 else 0
  | None => 0
  end.

Definition contentPenalty (contentData : option ContentStructureData) (depth : Z) : Q :=
  match contentData with
  | Some d =>
      (if internalLinkCount d =? 0 then 10 else 0) +
      (if (0 <? length (brokenLinks d))%nat then 5 else 0) +
      (if (inboundLinks d =? 0) && (0 <? depth) then 10 else 0)
  | None => 0 + 0 + 0
  end%Q.

Definition uxPenalty (designUxData : option DesignUxData) : Q :=
  match designUxData with
  | Some d => if negb (hasNavigation d) then 10 else 0
  | None => 0
  end.

(** The local names [seo], [content], ... are the source's; on the right of
    their own binding they still denote the category. *)
Definition calculatePageScores (page : PageData) : Scores :=
  let issues := issues page in
  let seo := scoreCategory 100 issues seo (seoPenalty (seoData page)) in
  let accessibility :=
    scoreCategory 100 issues accessibility (accessibilityPenalty (accessibilityData page)) in
  let content :=
    scoreCategory 95 issues content (contentPenalty (contentData page) (depth page)) in
  let uxDesign := scoreCategory 100 issues uxDesign (uxPenalty (designUxData page)) in
  let performance := scorePerformance (performanceData page) issues in
  let overall :=
    clampScore (inject_Z (seo + accessibility + content + uxDesign + performance) / 5)%Q in
  mkScores overall seo performance accessibility content uxDesign.

(** Running totals of the aggregation loop: [weightedTotals] and
    [totalWeight]. *)
Section AuditScores.
Context {num : Type} `{Number num}.

Record Totals := mkTotals {
  tOverall : num;
  tSeo : num;
  tPerformance : num;
  tAccessibility : num;
  tContent : num;
  tUxDesign : num
}.

Definition weight (page : PageData) : num :=
  ndiv (ofZ 1) (nadd (ofZ 1) (ofZ (depth page))).

(** One iteration of [for (const page of pages)]. *)
Definition accumulate (st : Totals * num) (page : PageData) : Totals * num :=
  let '(weightedTotals, totalWeight) := st in
  let weight := weight page in
  (mkTotals
     (nadd (tOverall weightedTotals) (nmul (ofZ (overall (scores page))) weight))
     (nadd (tSeo weightedTotals) (nmul (ofZ (seoScore (scores page))) weight))
     (nadd (tPerformance weightedTotals) (nmul (ofZ (performanceScore_ (scores page))) weight))
     (nadd (tAccessibility weightedTotals) (nmul (ofZ (accessibilityScore (scores page))) weight))
     (nadd (tContent weightedTotals) (nmul (ofZ (contentScore (scores page))) weight))
     (nadd (tUxDesign weightedTotals) (nmul (ofZ (uxDesignScore (scores page))) weight)),
   nadd totalWeight weight).

Definition summarize (allIssues : list Issue) : IssuesSummary :=
  mkIssuesSummary
    (Z.of_nat (length (filter (fun i => severity i = critical) allIssues)))
    (Z.of_nat (length (filter (fun i => severity i = major) allIssues)))
    (Z.of_nat (length (filter (fun i => severity i = minor) allIssues)))
    (Z.of_nat (length (filter (fun i => category i = seo) allIssues)))
    (Z.of_nat (length (filter (fun i => category i = performance) allIssues)))
    (Z.of_nat (length (filter (fun i => category i = accessibility) allIssues)))
    (Z.of_nat (length (filter (fun i => category i = content) allIssues)))
    (Z.of_nat (length (filter (fun i => category i = uxDesign) allIssues))).

Definition calculateAuditScores (pages : list PageData) : Scores * IssuesSummary :=
  match pages with
  | [] => (zeroScores, zeroSummary)
  | _ =>
      let '(weightedTotals, totalWeight) :=
        fold_left accumulate pages
          (mkTotals (ofZ 0) (ofZ 0) (ofZ 0) (ofZ 0) (ofZ 0) (ofZ 0), ofZ 0) in
      let scores :=
        mkScores
          (clampScore (ndiv (tOverall weightedTotals) totalWeight))
          (clampScore (ndiv (tSeo weightedTotals) totalWeight))
          (clampScore (ndiv (tPerformance weightedTotals) totalWeight))
          (clampScore (ndiv (tAccessibility weightedTotals) totalWeight))
          (clampScore (ndiv (tContent weightedTotals) totalWeight))
          (clampScore (ndiv (tUxDesign weightedTotals) totalWeight)) in
      let allIssues := flat_map issues pages in
      (scores, summarize allIssues)
  end.

(** The weighted mean of the specification: the sum of the weighted values
    over the sum of the weights, each summed in page order. *)
Definition weightedMean (xs : list (num * num)) : num :=
  ndiv (fold_left nadd (map (fun x => nmul (fst x) (snd x)) xs) (ofZ 0))
       (fold_left nadd (map snd xs) (ofZ 0)).

Definition weightedScore (field : Scores -> Z) (pages : list PageData) : Z :=
  clampScore (weightedMean (map (fun p => (ofZ (field (scores p)), weight p)) pages)).

End AuditScores.

(** The tally of the specification: every page's issue list is enumerated
    in turn and the matching issues are counted. *)
Fixpoint tally (P : Issue -> Prop) `{forall i, Decision (P i)}
    (pages : list PageData) : Z :=
  match pages with
  | [] => 0
  | page :: rest =>
      foldr (fun i n => if decide (P i) then 1 + n else n) 0 (issues page) + tally P rest
  end.

Definition tallyAll (pages : list PageData) : IssuesSummary :=
  mkIssuesSummary
    (tally (fun i => severity i = critical) pages)
    (tally (fun i => severity i = major) pages)
    (tally (fun i => severity i = minor) pages)
    (tally (fun i => category i = seo) pages)
    (tally (fun i => category i = performance) pages)
    (tally (fun i => category i = accessibility) pages)
    (tally (fun i => category i = content) pages)
    (tally (fun i => category i = uxDesign) pages).

(** The page-score formula of the specification, on integers: base minus
    the severity points of the category's issues minus the extra penalty,
    clamped to the range 0 to 100. *)
Definition penaltyPoints (s : Severity) : Z :=
  match s with critical => 25 | major => 15 | minor => 7 end.

Definition categoryPenalty (cat : ScoreCategory) (issues : list Issue) : Z :=
  foldr (fun i n => if bool_decide (category i = cat) then penaltyPoints (severity i) + n else n)
        0 issues.

Definition clampZ (x : Z) : Z := Z.max 0 (Z.min 100 x).

Definition categoryBase (cat : ScoreCategory) (page : PageData) : Z :=
  match cat with
  | seo | accessibility | uxDesign => 100
  | content => 95
  | performance =>
      match performanceData page ≫= performanceScore with
      | Some score => score
      | None => 80
      end
  end.

Definition extraPenalty (cat : ScoreCategory) (page : PageData) : Z :=
  match cat with
  | seo =>
      match seoData page with
      | Some d => if negb (wordCount d =? 0) && (wordCount d <? 120) then 5 else 0
      | None => 0
      end
  | accessibility =>
      match accessibilityData page with
      | Some d => if unlabeledInputs d =? 0 then 0 else 5
      | None => 0
      end
  | content =>
      match contentData page with
      | Some d =>
          (if internalLinkCount d =? 0 then 10 else 0) +
          (if brokenLinks d is [] then 0 else 5) +
          (if (inboundLinks d =? 0) && (0 <? depth page) then 10 else 0)
      | None => 0
      end
  | uxDesign =>
      match designUxData page with
      | Some d => if hasNavigation d then 0 else 10
      | None => 0
      end
  | performance => 0
  end.

Definition formulaScore (cat : ScoreCategory) (page : PageData) : Z :=
  clampZ (categoryBase cat page - categoryPenalty cat (issues page) - extraPenalty cat page).

Definition categoryScore (cat : ScoreCategory) (s : Scores) : Z :=
  match cat with
  | seo => seoScore s
  | performance => performanceScore_ s
  | accessibility => accessibilityScore s
  | content => contentScore s
  | uxDesign => uxDesignScore s
  end.

(** The six fields of a score record. *)
Definition scoreFields : list (Scores -> Z) :=
  [overall; seoScore; performanceScore_; accessibilityScore; contentScore; uxDesignScore].

(** Every field of a score record lies between two bounds. *)
Definition scoresWithin (lo hi : Z) (s : Scores) : Prop :=
  Forall (fun field => lo <= field s <= hi) scoreFields.

(** [page.issues.push(issue)] *)
Definition pushIssue (page : PageData) (issue : Issue) : PageData :=
  mkPageData (pageId page) (url page) (statusCode page) (depth page) (scores page)
    (issues page ++ [issue]) (seoData page) (performanceData page)
    (accessibilityData page) (contentData page) (designUxData page).

End Scoring.

(** ** The outside world

    Everything the pipeline obtains from its collaborators: the HTML
    parser's view of a document, URL parsing, the HTTP client, the
    environment, the clock and the identifier generator. *)

(** What the selectors of the analyzers and of the crawler read from a
    parsed document. *)
Record Dom := mkDom {
  titleText : string;
  metaDescriptionContent : option string;
  h1Count : Z;
  h1FirstText : string;
  bodyWordCount : Z;
  imgWithoutAltCount : Z;
  canonicalHref : option string;
  robotsContent : option string;
  htmlLang : option string;
  mainCount : Z;
  navCount : Z;
  headerCount : Z;
  footerCount : Z;
  inputCount : Z;
  labeledInputCount : Z;
  emptyButtonCount : Z;
  navigationCount : Z;
  distinctFontCount : Z;
  distinctColorCount : Z;
  viewportMetaCount : Z;
  anchorHrefs : list (option string)
}.

(** A parsed URL: its serialisation and its host name. *)
Record ParsedURL := mkParsedURL { URL_href : string; URL_hostname : string }.

Inductive ResponseData := StringData (body : string) | OtherData.

(** Outcome of the page GET: the client throws (network error, timeout)
    or a response arrives, whatever its status. *)
Inductive FetchOutcome :=
  | FetchThrew (errorMessage : string)
  | FetchResponse (responseStatus : Z) (contentType : option string) (data : ResponseData).

Record Lighthouse := mkLighthouse {
  lhScore : option Q;
  lhFirstContentfulPaint : option Q;
  lhLargestContentfulPaint : option Q;
  lhTotalBlockingTime : option Q;
  lhCumulativeLayoutShift : option Q
}.

Inductive PagespeedOutcome :=
  | PagespeedThrew (errorMessage : option string)
  | PagespeedResponse (lighthouseResult : Lighthouse).

Record World := mkWorld {
  (** the HTML parser and its selectors *)
  dom : string -> Dom;
  (** [new URL(input, base)]; [None] when it throws *)
  parseURL : string -> option string -> option ParsedURL;
  (** the GET of a page *)
  httpGet : string -> FetchOutcome;
  (** the HEAD probe of a link: its status, [None] when it throws *)
  httpHead : string -> option Z;
  (** [process.env.PAGESPEED_API_KEY] *)
  PAGESPEED_API_KEY : option string;
  (** the GET of the page-speed endpoint for a page URL and a key *)
  runPagespeed : string -> string -> PagespeedOutcome;
  (** [Number.prototype.toFixed] *)
  toFixed : Q -> nat -> string;
  (** the n-th identifier drawn by [randomUUID] *)
  randomUUID : nat -> string;
  (** [new Date().toISOString()] at the terminal update *)
  now : string
}.

(** ** The analyzer suite (server/analyzers.ts) *)

Module Analyzers.
Import JS.

Record AnalyzerOutput := mkAnalyzerOutput {
  aoIssues : list Issue;
  aoSeoData : option SeoData;
  aoPerformanceData : option PerformanceData;
  aoAccessibilityData : option AccessibilityData;
  aoContentData : option ContentStructureData;
  aoDesignUxData : option DesignUxData
}.

Definition CTA_KEYWORDS : list string :=
  ["prenota"; "ordina"; "chiama"; "contattaci"; "acquista";
   "book now"; "order now"; "call us"; "contact"; "buy now"]%string.

Definition CTA_ABOVE_FOLD_THRESHOLD : nat := 5000.

Definition createIssue (category : ScoreCategory) (code : string)
    (severity : Severity) (message : string) (pageUrl : string) : Issue :=
  mkIssue EmptyString category code severity message (Some pageUrl).

(** [if (c) issues.push(i)] *)
Definition pushIf (c : bool) (i : Issue) (issues : list Issue) : list Issue :=
  if c then issues ++ [i] else issues.

Section WithWorld.
Variable w : World.

Definition analyzeSeo (html url : string) : SeoData * list Issue :=
  let d := dom w html in
  let title := trim (titleText d) in
  let metaDescription := trim <$> metaDescriptionContent d in
  let h1Text := trim (h1FirstText d) in
  let wordCount := bodyWordCount d in
  let imagesWithoutAlt := imgWithoutAltCount d in
  let issues : list Issue := [] in
  let issues :=
    if negb (truthy title) then
      issues ++ [createIssue seo "MISSING_TITLE" critical "Missing <title> tag" url]
    else
      pushIf (String.length title <? 20)%nat
        (createIssue seo "SHORT_TITLE" minor "Title is shorter than 20 characters" url)
        issues in
  let issues :=
    match metaDescription with
    | Some (String _ _ as md) =>
        pushIf (String.length md <? 60)%nat
          (createIssue seo "SHORT_META_DESCRIPTION" minor "Meta description is quite short" url)
          issues
    | _ =>
        issues ++ [createIssue seo "MISSING_META_DESCRIPTION" major "Missing meta description" url]
    end in
  let issues :=
    if h1Count d =? 0 then
      issues ++ [createIssue seo "MISSING_H1" major "No H1 heading found" url]
    else
      pushIf (1 <? h1Count d)
        (createIssue seo "MULTIPLE_H1" minor "Multiple H1 headings found" url) issues in
  let issues :=
    pushIf (wordCount <? 200)
      (createIssue seo "LOW_WORD_COUNT" major "Low on-page word count (<200 words)" url)
      issues in
  let issues :=
    pushIf (0 <? imagesWithoutAlt)
      (createIssue seo "IMAGES_WITHOUT_ALT" major
         (pretty imagesWithoutAlt +:+ " images missing alt text") url)
      issues in
  (mkSeoData title metaDescription h1Text wordCount imagesWithoutAlt
     (canonicalHref d) (robotsContent d),
   issues).

Definition analyzePerformance (url : string) : option PerformanceData * list Issue :=
  let issues : list Issue := [] in
  match PAGESPEED_API_KEY w with
  | Some (String _ _ as apiKey) =>
      match runPagespeed w url apiKey with
      | PagespeedResponse lighthouse =>
          let performanceScore :=
            Math_round ((match lhScore lighthouse with
                         | Some s => if truthyQ s then s else 0
                         | None => 0
                         end) * 100)%Q in
          let firstContentfulPaintMs := lhFirstContentfulPaint lighthouse in
          let largestContentfulPaintMs := lhLargestContentfulPaint lighthouse in
          let totalBlockingTimeMs := lhTotalBlockingTime lighthouse in
          let cumulativeLayoutShift := lhCumulativeLayoutShift lighthouse in
          let issues :=
            match largestContentfulPaintMs with
            | Some lcp =>
                pushIf (truthyQ lcp && Qgtb lcp 4000)
                  (createIssue performance "SLOW_LCP_MOBILE" critical
                     ("LCP is " +:+ toFixed w (lcp / 1000)%Q 1 +:+ "s on mobile") url)
                  issues
            | None => issues
            end in
          let issues :=
            match totalBlockingTimeMs with
            | Some tbt =>
                pushIf (truthyQ tbt && Qgtb tbt 600)
                  (createIssue performance "HIGH_TBT" major
                     ("Total blocking time is " +:+ toFixed w tbt 0 +:+ "ms") url)
                  issues
            | None => issues
            end in
          let issues :=
            pushIf (performanceScore <? 50)
              (createIssue performance "POOR_PERFORMANCE_SCORE" critical
                 ("Performance score is " +:+ pretty performanceScore +:+ "/100") url)
              issues in
          (Some (mkPerformanceData (Some performanceScore) firstContentfulPaintMs
                   largestContentfulPaintMs totalBlockingTimeMs cumulativeLayoutShift
                   (Some "mobile"%string) None),
           issues)
      | PagespeedThrew errorMessage =>
          (Some (mkPerformanceData None None None None None None errorMessage),
           issues ++ [createIssue performance "PERFORMANCE_DATA_UNAVAILABLE" minor
                        "Failed to retrieve PageSpeed data" url])
      end
  | _ =>
      (None,
       issues ++ [createIssue performance "PERFORMANCE_DATA_UNAVAILABLE" minor
                    "PageSpeed API key not configured; using placeholder score" url])
  end.

Definition analyzeAccessibility (html url : string) : AccessibilityData * list Issue :=
  let d := dom w html in
  let lang := htmlLang d in
  let landmarks :=
    mkLandmarks (0 <? mainCount d) (0 <? navCount d) (0 <? headerCount d) (0 <? footerCount d) in
  let labeledInputs := labeledInputCount d in
  let unlabeledInputs := inputCount d - labeledInputs in
  let issues : list Issue := [] in
  let issues :=
    pushIf (negb (truthy_opt lang))
      (createIssue accessibility "MISSING_LANG" major "html element is missing lang attribute" url)
      issues in
  let issues :=
    pushIf (negb (lmMain landmarks))
      (createIssue accessibility "MISSING_MAIN" minor "Main landmark not found" url) issues in
  let issues :=
    pushIf (0 <? unlabeledInputs)
      (createIssue accessibility "UNLABELED_INPUTS" major
         (pretty unlabeledInputs +:+ " form fields missing labels") url)
      issues in
  let emptyButtons := emptyButtonCount d in
  let issues :=
    pushIf (0 <? emptyButtons)
      (createIssue accessibility "EMPTY_BUTTONS" minor
         (pretty emptyButtons +:+ " buttons have no accessible name") url)
      issues in
  (mkAccessibilityData (truthy_opt lang) landmarks labeledInputs unlabeledInputs, issues).

(** The liveness probe of one link: is it broken? *)
Definition isBroken (link : string) : bool :=
  match httpHead w link with
  | Some status => 400 <=? status
  | None => true
  end.

Definition analyzeContentStructure (page : PageResult) : ContentStructureData * list Issue :=
  let d := dom w (html page) in
  let title := toLowerCase (titleText d) in
  let h1 := toLowerCase (h1FirstText d) in
  let combined := prUrl page +:+ " " +:+ title +:+ " " +:+ h1 in
  let pageType :=
    if includes combined "contact" then "contact"
    else if includes combined "about" then "about"
    else if includes combined "menu" || includes combined "services" then "menu"
    else if includes combined "home" then "home"
    else "generic" in
  let issues : list Issue := [] in
  let '(brokenLinks, issues) :=
    if prDepth page <=? 1 then
      let linksToCheck := take 5 (internalLinks page) in
      let brokenLinks := List.filter isBroken linksToCheck in
      (brokenLinks,
       pushIf (0 <? length brokenLinks)%nat
         (createIssue content "BROKEN_INTERNAL_LINK" major
            (pretty (length brokenLinks) +:+ " internal links appear broken") (prUrl page))
         issues)
    else ([], issues) in
  (mkContentStructureData pageType%string
     (Z.of_nat (length (internalLinks page)))
     (Z.of_nat (length (externalLinks page)))
     brokenLinks 0
     (Z.of_nat (length (internalLinks page))),
   issues).

Definition analyzeDesignUx (html url : string) : DesignUxData * list Issue :=
  let d := dom w html in
  let hasNavigation := 0 <? navigationCount d in
  let lowerHtml := toLowerCase html in
  let primaryCtaMatch := List.find (fun keyword => includes lowerHtml keyword) CTA_KEYWORDS in
  let primaryCtaFound := truthy_opt primaryCtaMatch in
  let primaryCtaAboveFold :=
    match primaryCtaMatch with
    | Some m => (indexOf lowerHtml m <? CTA_ABOVE_FOLD_THRESHOLD)%nat
    | None => false
    end in
  let fontCount := distinctFontCount d in
  let colorCount := distinctColorCount d in
  let hasViewportMeta := 0 <? viewportMetaCount d in
  let issues : list Issue := [] in
  let issues :=
    pushIf (negb hasNavigation)
      (createIssue uxDesign "MISSING_NAV" major "Navigation landmark not detected" url) issues in
  let issues :=
    if negb primaryCtaFound then
      issues ++ [createIssue uxDesign "NO_PRIMARY_CTA" major "No clear call-to-action found" url]
    else
      pushIf (negb primaryCtaAboveFold)
        (createIssue uxDesign "NO_CTA_ABOVE_FOLD" minor
           "Primary call-to-action not found near top of page" url)
        issues in
  let issues :=
    pushIf (negb hasViewportMeta)
      (createIssue uxDesign "MISSING_VIEWPORT_META" critical
         "Missing responsive viewport meta tag" url)
      issues in
  let issues :=
    pushIf (4 <? fontCount)
      (createIssue uxDesign "EXCESSIVE_FONTS" minor "Too many different fonts detected" url)
      issues in
  let issues :=
    pushIf (8 <? colorCount)
      (createIssue uxDesign "EXCESSIVE_COLORS" minor
         "High number of inline text colors may hurt consistency" url)
      issues in
  (mkDesignUxData hasNavigation primaryCtaFound primaryCtaAboveFold fontCount colorCount
     hasViewportMeta,
   issues).

Definition analyzePage (page : PageResult) : AnalyzerOutput :=
  let html := html page in
  let url := prUrl page in
  if negb (truthy html) then
    mkAnalyzerOutput
      [createIssue content "PAGE_UNREACHABLE" critical "Page could not be retrieved" url]
      None None None None None
  else
    let seo := analyzeSeo html url in
    let accessibility := analyzeAccessibility html url in
    let ux := analyzeDesignUx html url in
    let content := analyzeContentStructure page in
    let '(performanceData, performanceIssues) :=
      if prDepth page =? 0 then analyzePerformance url else (None, []) in
    let issues :=
      snd seo ++ performanceIssues ++ snd accessibility ++ snd content ++ snd ux in
    mkAnalyzerOutput issues (Some (fst seo)) performanceData
      (Some (fst accessibility)) (Some (fst content)) (Some (fst ux)).

End WithWorld.

(** Does a reported metric exceed a limit? *)
Definition exceeds (metric : option Q) (limit : Q) : bool :=
  match metric with
  | Some v => Qgtb v limit
  | None => false
  end.

(** The score the analyzer derives from the report of the service. *)
Definition reportedScore (lighthouse : Lighthouse) : Z :=
  Math_round ((match lhScore lighthouse with
               | Some s => if truthyQ s then s else 0
               | None => 0
               end) * 100)%Q.

(** What an issue says, apart from its identifier and its page. *)
Definition describe (i : Issue) : ScoreCategory * string * Severity * string :=
  (category i, code i, severity i, message i).

(** The issues that satisfy a condition, in order. *)
Definition issuesWhere (P : Issue -> Prop) `{forall i, Decision (P i)}
    (issues : list Issue) : list (ScoreCategory * string * Severity * string) :=
  map describe (filter P issues).

(** An issue as an analyzer of a category creates it for a page: of that
    category, without identifier, for that page, and not the orphan issue of
    the orchestrator. *)
Definition fromAnalyzer (cat : ScoreCategory) (url : string) (i : Issue) : Prop :=
  category i = cat /\ code i <> "ORPHAN_PAGE"%string /\
  issueId i = EmptyString /\ pageUrl i = Some url.

(** The same, whatever the category. *)
Definition analyzed (url : string) (i : Issue) : Prop :=
  code i <> "ORPHAN_PAGE"%string /\ issueId i = EmptyString /\ pageUrl i = Some url.

(** An issue that is neither of the performance category nor coded
    PERFORMANCE_DATA_UNAVAILABLE. *)
Definition unrelated (i : Issue) : Prop :=
  category i <> performance /\ code i <> "PERFORMANCE_DATA_UNAVAILABLE"%string.

End Analyzers.

(** ** The crawler (the crawler module the orchestrator imports) *)

Module Crawler.
Import JS.

Record QueueItem := mkQueueItem { qUrl : string; qDepth : Z }.

Record CrawlOptions := mkCrawlOptions {
  maxPages : option Z;
  maxDepth : option Z;
  timeoutMs : option Z
}.

Definition DEFAULT_maxPages : Z := 20.
Definition DEFAULT_maxDepth : Z := 2.
Definition DEFAULT_timeoutMs : Z := 12000.

Definition isValidLink (href : string) : bool :=
  let trimmed := trim href in
  if negb (truthy trimmed) then false
  else
    let lower := toLowerCase trimmed in
    negb (startsWith lower "mailto:") &&
    negb (startsWith lower "tel:") &&
    negb (startsWith lower "javascript:") &&
    negb (startsWith lower "#") &&
    negb (startsWith lower "data:").

(** The three arrays the anchor callback pushes to. *)
Record Links := mkLinks {
  lInternal : list string;
  lExternal : list string;
  lQueue : list QueueItem
}.

Section WithWorld.
Variable w : World.
Variable domain : string.
Variable maxDepth : Z.

(** The callback of [$('a').each], for one anchor element. *)
Definition eachAnchor (currentUrl : string) (depth : Z) (visited : gset string)
    (st : Links) (href : option string) : Links :=
  match href with
  | Some href =>
      if negb (truthy href) || negb (isValidLink href) then st
      else
        match parseURL w href (Some currentUrl) with
        | Some u =>
            let absoluteUrl := URL_href u in
            match parseURL w absoluteUrl None with
            | Some u' =>
                let linkDomain := URL_hostname u' in
                let isInternal := String.eqb linkDomain domain in
                if isInternal then
                  let shouldQueue :=
                    (depth <? maxDepth) &&
                    negb (bool_decide (absoluteUrl ∈ visited)) &&
                    negb (existsb (fun item => String.eqb (qUrl item) absoluteUrl) (lQueue st)) in
                  mkLinks (lInternal st ++ [absoluteUrl]) (lExternal st)
                    (if shouldQueue
                     then lQueue st ++ [mkQueueItem absoluteUrl (depth + 1)]
                     else lQueue st)
                else
                  mkLinks (lInternal st) (lExternal st ++ [absoluteUrl]) (lQueue st)
            | None => st
            end
        | None => st
        end
  | None => st
  end.

(** The body of the loop once [currentUrl] has been marked visited: the
    [try] block and its [catch]. Returns the pushed result and the queue. *)
Definition visit (next : QueueItem) (queue : list QueueItem) (visited : gset string)
    : PageResult * list QueueItem :=
  let currentUrl := qUrl next in
  let depth := qDepth next in
  match httpGet w currentUrl with
  | FetchResponse status contentType data =>
      let contentType := default EmptyString contentType in
      let isHtml := includes contentType "text/html" in
      let html :=
        match data with
        | StringData body => if isHtml then body else EmptyString
        | OtherData => EmptyString
        end in
      let links :=
        if truthy html && (200 <=? status) && (status <? 400) then
          fold_left (eachAnchor currentUrl depth visited) (anchorHrefs (dom w html))
            (mkLinks [] [] queue)
        else mkLinks [] [] queue in
      (mkPageResult currentUrl html status depth (lInternal links) (lExternal links) None,
       lQueue links)
  | FetchThrew message =>
      (mkPageResult currentUrl EmptyString 0 depth [] [] (Some message), queue)
  end.

(** The [while] loop. [budget] is [maxPages - results.length], the slack of
    the loop guard: every iteration that does not [continue] pushes exactly
    one result. Each unfolding of the inner function is one iteration. *)
Fixpoint crawlLoop (budget : nat)
    : list QueueItem -> gset string -> list PageResult -> list PageResult :=
  fix iterate (queue : list QueueItem) (visited : gset string)
      (results : list PageResult) : list PageResult :=
    match queue with
    | [] => results
    | next :: queue =>
        match budget with
        | O => results
        | S budget' =>
            if bool_decide (qUrl next ∈ visited) then iterate queue visited results
            else
              let visited := {[qUrl next]} ∪ visited in
              let '(result, queue) := visit next queue visited in
              crawlLoop budget' queue visited (results ++ [result])
        end
    end.

End WithWorld.

Definition crawlSite (w : World) (startUrl : string) (options : CrawlOptions)
    : list PageResult :=
  let maxPages := default DEFAULT_maxPages (maxPages options) in
  let maxDepth := default DEFAULT_maxDepth (maxDepth options) in
  let queue := [mkQueueItem startUrl 0] in
  match parseURL w startUrl None with
  | Some u =>
      let domain := URL_hostname u in
      crawlLoop w domain maxDepth (Z.to_nat maxPages) queue ∅ []
  | None => []
  end.

(** The links the specification expects a page to record: the resolved
    absolute URL of every valid anchor, in document order. *)
Definition resolveAnchor (w : World) (currentUrl : string) (href : option string)
    : option (string * string) :=
  href ← href;
  if truthy href && isValidLink href then
    u ← parseURL w href (Some currentUrl);
    u' ← parseURL w (URL_href u) None;
    Some (URL_href u, URL_hostname u')
  else None.

Definition resolvedAnchors (w : World) (currentUrl html : string) : list (string * string) :=
  omap (resolveAnchor w currentUrl) (anchorHrefs (dom w html)).

(** Of the resolved anchors, those of the crawl's domain and the others. *)
Definition internalOf (domain : string) (resolved : list (string * string)) : list string :=
  (filter (fun x => snd x = domain) resolved).*1.

Definition externalOf (domain : string) (resolved : list (string * string)) : list string :=
  (filter (fun x => snd x <> domain) resolved).*1.

(** Links are extracted from a result with markup and a status in 200..399. *)
Definition extracted (r : PageResult) : bool :=
  truthy (html r) && (200 <=? prStatusCode r) && (prStatusCode r <? 400).

(** A fetch fails when the client throws or when the response carries no
    HTML text: another content type, or a body that is not a string. *)
Definition notHtml (contentType : option string) (data : ResponseData) : bool :=
  negb (includes (default EmptyString contentType) "text/html") ||
  match data with OtherData => true | StringData _ => false end.

Definition fetchFails (w : World) (url : string) : Prop :=
  match httpGet w url with
  | FetchThrew _ => True
  | FetchResponse _ contentType data => notHtml contentType data = true
  end.

(** The links of a result are the resolved anchors of its markup. *)
Definition linksRecorded (w : World) (domain : string) (r : PageResult) : Prop :=
  let resolved := if extracted r then resolvedAnchors w (prUrl r) (html r) else [] in
  internalLinks r = internalOf domain resolved /\
  externalLinks r = externalOf domain resolved.

(** Where a URL at a depth comes from: it is the seed, or one of the first
    [bound] results links to it from one level up, below the depth limit. *)
Definition isSeed (startUrl : string) (u : string) (d : Z) : Prop :=
  u = startUrl /\ d = 0.

Definition hasParent (maxDepth : Z) (results : list PageResult) (bound : nat)
    (u : string) (d : Z) : Prop :=
  exists i p, (i < bound)%nat /\ results !! i = Some p /\
    u ∈ internalLinks p /\ d = prDepth p + 1 /\ prDepth p < maxDepth.

(** The invariant of the loop: every result and every queued item has such
    an origin. *)
Definition depthInv (maxDepth : Z) (startUrl : string) (queue : list QueueItem)
    (results : list PageResult) : Prop :=
  (forall j r, results !! j = Some r ->
     isSeed startUrl (prUrl r) (prDepth r) \/
     hasParent maxDepth results j (prUrl r) (prDepth r)) /\
  (forall item, item ∈ queue ->
     isSeed startUrl (qUrl item) (qDepth item) \/
     hasParent maxDepth results (length results) (qUrl item) (qDepth item)).

(** Items pushed while a page is scanned point to one of its internal
    links, one level down, and the page is below the depth limit. *)
Definition pushedFrom (maxDepth : Z) (queue0 : list QueueItem) (depth : Z) (st : Links)
    : Prop :=
  forall item, item ∈ lQueue st ->
    item ∈ queue0 \/
    (qUrl item ∈ lInternal st /\ qDepth item = depth + 1 /\ depth < maxDepth).

(** Below the depth limit every internal link of a page is, after the
    scan, visited already or waiting in the queue. *)
Definition linksCovered (visited : gset string) (st : Links) : Prop :=
  forall u, u ∈ lInternal st -> u ∈ visited \/ u ∈ qUrl <$> lQueue st.

(** What the loop keeps: the budget is the room left under the page limit,
    the visited set holds the URLs of the results, these are pairwise
    distinct, and every internal link of a result below the depth limit is
    visited or queued. *)
Definition crawlInv (maxDepth : Z) (limit : nat) (b : nat) (q : list QueueItem)
    (v : gset string) (r : list PageResult) : Prop :=
  (length r + b = limit)%nat /\
  (forall u, u ∈ v <-> u ∈ prUrl <$> r) /\
  NoDup (prUrl <$> r) /\
  (forall p u, p ∈ r -> prDepth p < maxDepth -> u ∈ internalLinks p ->
     u ∈ v \/ u ∈ qUrl <$> q).

(** The breadth-first order: depths never decrease from the results on to
    the queue, two queued items are at most one level apart, and no depth is
    negative. *)
Definition bfsInv (q : list QueueItem) (r : list PageResult) : Prop :=
  StronglySorted Z.le ((prDepth <$> r) ++ (qDepth <$> q)) /\
  (forall a b, a ∈ q -> b ∈ q -> qDepth b <= qDepth a + 1) /\
  Forall (fun d => 0 <= d) ((prDepth <$> r) ++ (qDepth <$> q)).

End Crawler.

(** ** The store (server/storage.ts) *)

Module Storage.

(** [Partial<Audit>], with the fields the orchestrator ever sets. *)
Record AuditUpdate := mkAuditUpdate {
  uStatus : option AuditStatus;
  uCompletedAt : option string;
  uScores : option Scores;
  uIssuesSummary : option IssuesSummary;
  uPages : option (list PageData);
  uReportMarkdown : option string
}.

(** [{ ...audit, ...updates }] *)
Definition merge (a : Audit) (u : AuditUpdate) : Audit :=
  mkAudit (auditId a) (auditUrl a)
    (default (status a) (uStatus u))
    (createdAt a)
    (match uCompletedAt u with Some t => Some t | None => completedAt a end)
    (default (auditScores a) (uScores u))
    (default (issuesSummary a) (uIssuesSummary u))
    (default (pages a) (uPages u))
    (match uReportMarkdown u with Some r => Some r | None => reportMarkdown a end).

Definition get (audits : list Audit) (id : string) : option Audit :=
  List.find (fun a => String.eqb (auditId a) id) audits.

Fixpoint update (audits : list Audit) (id : string) (updates : AuditUpdate) : list Audit :=
  match audits with
  | [] => []
  | a :: rest =>
      if String.eqb (auditId a) id then merge a updates :: rest
      else a :: update rest id updates
  end.

Definition create (id url createdAt : string) (audits : list Audit)
    : Audit * list Audit :=
  let newAudit := mkAudit id url QUEUED createdAt None zeroScores zeroSummary [] None in
  (newAudit, audits ++ [newAudit]).

End Storage.

(** ** The orchestrator (server/runner.ts) *)

Module Runner.
Import JS.

Definition buildInboundLinkMap (pages : list PageResult) : gmap string Z :=
  let inbound := fold_left (fun m p => <[prUrl p := 0]> m) pages ∅ in
  fold_left
    (fun m page =>
       fold_left
         (fun (m : gmap string Z) link =>
            match m !! link with
            | Some n => <[link := n + 1]> m
            | None => m
            end)
         (internalLinks page) m)
    pages inbound.

Definition withIssues (page : PageData) (issues : list Issue) : PageData :=
  mkPageData (pageId page) (url page) (statusCode page) (depth page) (scores page)
    issues (seoData page) (performanceData page) (accessibilityData page)
    (contentData page) (designUxData page).

Definition withScores (page : PageData) (scores : Scores) : PageData :=
  mkPageData (pageId page) (url page) (statusCode page) (depth page) scores
    (issues page) (seoData page) (performanceData page) (accessibilityData page)
    (contentData page) (designUxData page).

(** The content snapshot is the object the analyzer returned: the
    assignment to its fields is seen through the returned page. *)
Definition applyContentGraphIssues (page : PageData) (inboundLinks : Z) : PageData :=
  let issues := issues page in
  let contentData :=
    (fun d =>
       mkContentStructureData (pageType d) (internalLinkCount d) (externalLinkCount d)
         (brokenLinks d) inboundLinks (internalLinkCount d)) <$> contentData page in
  let issues :=
    if (inboundLinks =? 0) && (0 <? depth page) then
      issues ++ [mkIssue EmptyString content "ORPHAN_PAGE" major
                   "Page has no inbound internal links" (Some (url page))]
    else issues in
  mkPageData (pageId page) (url page) (statusCode page) (depth page) (scores page)
    issues (seoData page) (performanceData page) (accessibilityData page)
    contentData (designUxData page).

(** [JSON.stringify(issuesSummary.byCategory, null, 2)] *)
Definition stringifyByCategory (s : IssuesSummary) : string :=
  let entry (k : string) (v : Z) := "  " +:+ quote +:+ k +:+ quote +:+ ": " +:+ pretty v in
  "{" +:+ newline +:+
  entry "seo" (bySeo s) +:+ "," +:+ newline +:+
  entry "performance" (byPerformance s) +:+ "," +:+ newline +:+
  entry "accessibility" (byAccessibility s) +:+ "," +:+ newline +:+
  entry "content" (byContent s) +:+ "," +:+ newline +:+
  entry "uxDesign" (byUxDesign s) +:+ newline +:+ "}".

Definition generateReport (url : string) (scores : Scores) (s : IssuesSummary) : string :=
  "# Audit Report for " +:+ url +:+ newline +:+ newline +:+
  "## Overview" +:+ newline +:+
  "- **Overall score:** " +:+ pretty (overall scores) +:+ "/100" +:+ newline +:+
  "- **SEO:** " +:+ pretty (seoScore scores) +:+ newline +:+
  "- **Performance:** " +:+ pretty (performanceScore_ scores) +:+ newline +:+
  "- **Accessibility:** " +:+ pretty (accessibilityScore scores) +:+ newline +:+
  "- **Content:** " +:+ pretty (contentScore scores) +:+ newline +:+
  "- **UX & Design:** " +:+ pretty (uxDesignScore scores) +:+ newline +:+ newline +:+
  "## Issues summary" +:+ newline +:+
  "- Critical: " +:+ pretty (nCritical s) +:+ newline +:+
  "- Major: " +:+ pretty (nMajor s) +:+ newline +:+
  "- Minor: " +:+ pretty (nMinor s) +:+ newline +:+
  "- By category: " +:+ stringifyByCategory s +:+ newline +:+ newline +:+
  "## Next steps" +:+ newline +:+
  "1. Address critical and major issues starting from the homepage and top-level navigation pages."
    +:+ newline +:+
  "2. Improve metadata (titles, descriptions, headings) on thin-content pages." +:+ newline +:+
  "3. Add responsive viewport meta tags and clear CTAs above the fold where missing."
    +:+ newline +:+
  "4. Re-run the audit after fixes to validate improvements." +:+ newline.

Section WithWorld.
Variable w : World.

(** The part of the loop body that follows the [continue] of unreachable
    pages: analysis, graph issues, identifiers, scores. *)
Definition analyzeReachable (inboundMap : gmap string Z) (k : nat) (raw : PageResult)
    : PageData :=
  let analysis := Analyzers.analyzePage w raw in
  let pageBase :=
    mkPageData (randomUUID w k) (prUrl raw) (prStatusCode raw) (prDepth raw) zeroScores
      (Analyzers.aoIssues analysis) (Analyzers.aoSeoData analysis)
      (Analyzers.aoPerformanceData analysis) (Analyzers.aoAccessibilityData analysis)
      (Analyzers.aoContentData analysis) (Analyzers.aoDesignUxData analysis) in
  let withGraph :=
    applyContentGraphIssues pageBase (default 0 (inboundMap !! prUrl raw)) in
  let issuesWithIds :=
    imap (fun idx issue =>
            mkIssue (pageId withGraph +:+ "-" +:+ pretty idx) (category issue)
              (code issue) (severity issue) (message issue) (Some (url withGraph)))
      (issues withGraph) in
  let scoredPage := withIssues withGraph issuesWithIds in
  withScores scoredPage (Scoring.calculatePageScores scoredPage).

(** One iteration of [for (const raw of crawledPages)]: the page pushed to
    [analyzedPages]. The iteration is the [k]-th and draws the [k]-th
    identifier. *)
Definition analyzeOne (inboundMap : gmap string Z) (k : nat) (raw : PageResult) : PageData :=
  match error raw with
  | Some (String _ _ as message) =>
      mkPageData (randomUUID w k) (prUrl raw) (prStatusCode raw) (prDepth raw) zeroScores
        [mkIssue EmptyString content "PAGE_UNREACHABLE" critical message (Some (prUrl raw))]
        None None None None None
  | _ => analyzeReachable inboundMap k raw
  end.

(** The successive contents of the store, one per [storage.update]; no
    update is made when the audit does not exist. None of the modelled
    steps throws, so the [catch] of the pipeline is never entered. *)
Definition startAudit (auditId : string) (maxPages : Z) (audits : list Audit)
    : list (list Audit) :=
  match Storage.get audits auditId with
  | None => []
  | Some audit =>
      let running :=
        Storage.update audits auditId
          (Storage.mkAuditUpdate (Some RUNNING) None None None None None) in
      let crawledPages :=
        Crawler.crawlSite w (auditUrl audit)
          (Crawler.mkCrawlOptions (Some maxPages) (Some 2) None) in
      if (length crawledPages =? 0)%nat then
        [running;
         Storage.update running auditId
           (Storage.mkAuditUpdate (Some FAILED) (Some (now w)) None None None None)]
      else
        let inboundMap := buildInboundLinkMap crawledPages in
        let analyzedPages := imap (analyzeOne inboundMap) crawledPages in
        let '(scores, issuesSummary) := Scoring.calculateAuditScores (num := Q) analyzedPages in
        let reportMarkdown := generateReport (auditUrl audit) scores issuesSummary in
        [running;
         Storage.update running auditId
           (Storage.mkAuditUpdate (Some COMPLETED) (Some (now w)) (Some scores)
              (Some issuesSummary) (Some analyzedPages) (Some reportMarkdown))]
  end.

End WithWorld.

(** The pages that the loop of [startAudit] builds from the crawl results. *)
Definition analyzeAll (w : World) (crawledPages : list PageResult) : list PageData :=
  imap (analyzeOne w (buildInboundLinkMap crawledPages)) crawledPages.

(** The body of the inner loop of [buildInboundLinkMap]. *)
Definition bump (m : gmap string Z) (link : string) : gmap string Z :=
  match m !! link with
  | Some n => <[link := n + 1]> m
  | None => m
  end.

(** How often a URL occurs among the internal links of all the results. *)
Definition inboundCount (pages : list PageResult) (u : string) : Z :=
  Z.of_nat (length (filter (fun link => link = u) (flat_map internalLinks pages))).

(** What the orphan issue of [applyContentGraphIssues] says. *)
Definition orphanIssue : ScoreCategory * string * Severity * string :=
  (content, "ORPHAN_PAGE", major, "Page has no inbound internal links")%string.

End Runner.

(** ** Concrete inputs used by the examples below *)

Module Examples.
Import JS.

Definition anIssue (cat : ScoreCategory) (code : string) (sev : Severity) : Issue :=
  mkIssue "p-0" cat code sev "m" (Some "http://site.test/"%string).

(** A seed page for which the page-speed service reported a score of 90
    and on which one major performance issue was raised. *)
Definition measuredPage : PageData :=
  mkPageData "p" "http://site.test/" 200 0 zeroScores
    [anIssue performance "HIGH_TBT" major]
    None
    (Some (mkPerformanceData (Some 90) None None (Some 700%Q) None (Some "mobile"%string) None))
    None None None.

Definition scoredAt (d : Z) (s : Scores) : PageData :=
  mkPageData "p" "http://site.test/" 200 d s [] None None None None None.

(** A seed page and a page two links away. *)
Definition twoPages : list PageData :=
  [scoredAt 0 (mkScores 50 50 50 50 50 50); scoredAt 2 (mkScores 54 90 82 70 62 42)].

(** A small site. Its URLs are absolute and already normalised, so that
    parsing leaves them as they are. *)
Definition seed : string := "http://site.test/".

Definition parseAbsolute (input : string) (base : option string) : option ParsedURL :=
  if startsWith input "http://site.test/" then Some (mkParsedURL input "site.test")
  else if startsWith input "http://other.test/" then Some (mkParsedURL input "other.test")
  else None.

Definition twiceLinked : string :=
  "<a href=http://site.test/a>A</a> <a href=http://site.test/a>A again</a>".

Definition homePage : string := "<title>Home</title><h1>Home</h1>".

(** What the parser finds in [homePage]: a title, one heading of one word,
    no anchor. *)
Definition homeDom : Dom :=
  mkDom "Home" None 1 "Home" 1 0 None None None 0 0 0 0 0 0 0 0 0 0 0 [].

(** What the parser finds in [twiceLinked]: two anchors, three words. *)
Definition twiceLinkedDom : Dom :=
  mkDom EmptyString None 0 EmptyString 3 0 None None None 0 0 0 0 0 0 0 0 0 0 0
    [Some "http://site.test/a"; Some "http://site.test/a"]%string.

Definition parseHtml (html : string) : Dom :=
  if String.eqb html twiceLinked then twiceLinkedDom else homeDom.

Definition world (get : string -> FetchOutcome) (key : option string)
    (pagespeed : PagespeedOutcome) : World :=
  mkWorld parseHtml parseAbsolute get (fun _ => Some 200) key (fun _ _ => pagespeed)
    (fun _ _ => "n"%string) (fun k => "page" +:+ pretty k) "2024-01-01T00:00:00.000Z".

Definition htmlResponse (body : string) : FetchOutcome :=
  FetchResponse 200 (Some "text/html; charset=utf-8"%string) (StringData body).

(** Every URL answers with a PDF document. *)
Definition pdfWorld : World :=
  world (fun _ => FetchResponse 200 (Some "application/pdf"%string) (StringData "%PDF-1.7"))
    None (PagespeedThrew None).

(** No URL can be reached. *)
Definition downWorld : World :=
  world (fun _ => FetchThrew "connect ECONNREFUSED") None (PagespeedThrew None).

(** The seed page links twice to the same page. *)
Definition linkedWorld : World :=
  world (fun u => if String.eqb u seed then htmlResponse twiceLinked
                  else htmlResponse homePage)
    None (PagespeedThrew None).

(** The page-speed service has a key and fails. *)
Definition failingServiceWorld : World :=
  world (fun _ => htmlResponse homePage) (Some "key"%string)
    (PagespeedThrew (Some "timeout of 15000ms exceeded"%string)).

(** The page-speed service reports a good score, a largest contentful
    paint of 3 seconds and a layout shift of 0.9. *)
Definition sluggishWorld : World :=
  world (fun _ => htmlResponse homePage) (Some "key"%string)
    (PagespeedResponse
       (mkLighthouse (Some (9 # 10)%Q) (Some 1200%Q) (Some 3000%Q) (Some 100%Q)
          (Some (9 # 10)%Q))).

(** What the crawl records for the seed page of [linkedWorld]. *)
Definition linkedSeedResult : PageResult :=
  mkPageResult seed twiceLinked 200 0
    ["http://site.test/a"; "http://site.test/a"]%string [] None.

Definition seedResult : PageResult :=
  mkPageResult seed homePage 200 0 [] [] None.

(** What the crawl records for a PDF document. *)
Definition pdfResult : PageResult :=
  mkPageResult seed EmptyString 200 0 [] [] None.

Definition options (pages depth : Z) : Crawler.CrawlOptions :=
  Crawler.mkCrawlOptions (Some pages) (Some depth) None.

Definition queuedAudit (url : string) : Audit :=
  fst (Storage.create "audit-1" url "2024-01-01T00:00:00.000Z" []).

End Examples.

(** * Properties *)

(** ** Scoring *)

Module ScoringFacts.
Import JS Scoring.

Lemma Math_round_inject_Z (n : Z) : Math_round (inject_Z n) = n.
Proof.
  unfold Math_round, Qplus, Qfloor, inject_Z; simpl.
  rewrite Z.mul_1_r. symmetry. apply Z.div_unique with (r := 1); lia.
Qed.

#[export] Instance Math_round_proper : Proper (Qeq ==> eq) Math_round.
Proof. intros x y Hxy. unfold Math_round. now rewrite Hxy. Qed.

Lemma Math_round_half (n : Z) : Math_round (n # 2) = (n + 1) / 2.
Proof.
  unfold Math_round.
  assert (E : ((n # 2) + (1 # 2) == (n + 1) # 2)%Q).
  { unfold Qeq, Qplus; simpl. lia. }
  rewrite E. reflexivity.
Qed.

Lemma clampScore_inject_Z (x : Q) (n : Z) :
  (x == inject_Z n)%Q -> clampScore x = clampZ n.
Proof.
  intros E. unfold clampScore, clampZ; simpl. now rewrite E, Math_round_inject_Z.
Qed.

(** The penalty loop of [scoreCategory] adds up the severity points of the
    category's issues. *)
Lemma totalPenalty_sum (cat : ScoreCategory) (l : list Issue) (q : Q) :
  (fold_left (fun acc issue => acc + severityPenalty (severity issue))
     (filter (fun issue => category issue = cat) l) q
   == q + inject_Z (categoryPenalty cat l))%Q.
Proof.
  revert q; induction l as [|i l IH]; intros q; simpl.
  - unfold inject_Z. ring.
  - rewrite filter_cons. unfold categoryPenalty; simpl.
    destruct (decide (category i = cat)) as [Hc|Hc].
    + rewrite bool_decide_eq_true_2 by assumption. simpl. rewrite IH.
      fold (categoryPenalty cat l). rewrite inject_Z_plus.
      destruct (severity i); simpl; unfold inject_Z at 2; ring.
    + rewrite bool_decide_eq_false_2 by assumption. apply IH.
Qed.

Lemma halfPenalty_sum (l : list Issue) (q : Q) :
  (fold_left (fun acc i => acc + severityPenalty (severity i) / 2)
     (filter (fun i => category i = performance) l) q
   == q + inject_Z (categoryPenalty performance l) / 2)%Q.
Proof.
  revert q; induction l as [|i l IH]; intros q; simpl.
  - unfold inject_Z. field.
  - rewrite filter_cons. unfold categoryPenalty; simpl.
    destruct (decide (category i = performance)) as [Hc|Hc].
    + rewrite bool_decide_eq_true_2 by assumption. simpl. rewrite IH.
      fold (categoryPenalty performance l). rewrite inject_Z_plus.
      destruct (severity i); simpl; unfold inject_Z at 2; field.
    + rewrite bool_decide_eq_false_2 by assumption. apply IH.
Qed.

Lemma scoreCategory_formula (base extra : Z) (l : list Issue) (cat : ScoreCategory) :
  scoreCategory (inject_Z base) l cat (inject_Z extra)
  = clampZ (base - categoryPenalty cat l - extra).
Proof.
  unfold scoreCategory. apply clampScore_inject_Z.
  rewrite totalPenalty_sum. unfold Zminus.
  rewrite !inject_Z_plus, !inject_Z_opp. ring.
Qed.

Lemma scorePerformance_measured (score : Z) (l : list Issue) :
  clampScore
    (inject_Z score -
     fold_left (fun acc i => acc + severityPenalty (severity i) / 2)
       (filter (fun i => category i = performance) l) 0)%Q
  = clampZ ((2 * score - categoryPenalty performance l + 1) / 2).
Proof.
  unfold clampScore, clampZ; simpl.
  rewrite <- Math_round_half. f_equal. f_equal.
  apply Math_round_proper. rewrite halfPenalty_sum.
  unfold Qeq, Qminus, Qplus, Qdiv, Qmult, Qinv, Qopp, inject_Z; simpl. lia.
Qed.

Lemma penalties_inject (page : PageData) :
  seoPenalty (seoData page) = inject_Z (extraPenalty seo page) /\
  accessibilityPenalty (accessibilityData page) = inject_Z (extraPenalty accessibility page) /\
  (contentPenalty (contentData page) (depth page) == inject_Z (extraPenalty content page))%Q /\
  uxPenalty (designUxData page) = inject_Z (extraPenalty uxDesign page).
Proof.
  unfold seoPenalty, accessibilityPenalty, contentPenalty, uxPenalty, extraPenalty.
  repeat split.
  - destruct (seoData page) as [d|]; [|reflexivity].
    destruct (negb (wordCount d =? 0) && (wordCount d <? 120)); reflexivity.
  - destruct (accessibilityData page) as [d|]; [|reflexivity].
    destruct (unlabeledInputs d =? 0); reflexivity.
  - destruct (contentData page) as [d|]; [|reflexivity].
    destruct (internalLinkCount d =? 0), (brokenLinks d),
      ((inboundLinks d =? 0) && (0 <? depth page)); reflexivity.
  - destruct (designUxData page) as [d|]; [|reflexivity].
    destruct (hasNavigation d); reflexivity.
Qed.

Lemma scoreCategory_proper (base : Q) (l : list Issue) (cat : ScoreCategory) (e e' : Q) :
  (e == e')%Q -> scoreCategory base l cat e = scoreCategory base l cat e'.
Proof.
  intros E. unfold scoreCategory, clampScore; simpl. now rewrite E.
Qed.

(** The performance score, with and without an external score. *)
Lemma performance_score_formula (page : PageData) :
  scorePerformance (performanceData page) (issues page) =
    match performanceData page ≫= performanceScore with
    | None => formulaScore performance page
    | Some score =>
        clampZ ((2 * score - categoryPenalty performance (issues page) + 1) / 2)
    end.
Proof.
  unfold scorePerformance, formulaScore, categoryBase.
  destruct (performanceData page ≫= performanceScore) as [score|].
  - apply scorePerformance_measured.
  - apply (scoreCategory_formula 80 0).
Qed.

(** C2, as the code has it: the seo, accessibility, content and uxDesign
    scores, and the performance score of a page without an external score,
    are the base minus the severity points (25, 15, 7) of the category's
    issues minus the extra penalty, clamped to 0..100; with an external
    score the performance score is that score minus HALF the severity
    points, rounded to the nearest integer (ties upwards) and clamped. *)
Theorem page_scores_formula (page : PageData) :
  let s := calculatePageScores page in
  seoScore s = formulaScore seo page /\
  accessibilityScore s = formulaScore accessibility page /\
  contentScore s = formulaScore content page /\
  uxDesignScore s = formulaScore uxDesign page /\
  performanceScore_ s =
    match performanceData page ≫= performanceScore with
    | None => formulaScore performance page
    | Some score =>
        clampZ ((2 * score - categoryPenalty performance (issues page) + 1) / 2)
    end.
Proof.
  destruct (penalties_inject page) as (Hs & Ha & Hc & Hu).
  unfold calculatePageScores, formulaScore; simpl.
  rewrite Hs, Ha, Hu, (scoreCategory_proper _ _ _ _ _ Hc).
  repeat split; try apply (scoreCategory_formula 100); try apply (scoreCategory_formula 95).
  apply performance_score_formula.
Qed.

(** C2 as stated fails where an external performance score is present:
    with a score of 90 and one major performance issue the code yields
    round(90 - 7.5) = 83, the stated formula 90 - 15 = 75. *)
Lemma page_scores_formula_fails_on_measured_page :
  performanceScore_ (calculatePageScores Examples.measuredPage) = 83 /\
  formulaScore performance Examples.measuredPage = 75 /\
  categoryScore performance (calculatePageScores Examples.measuredPage)
    <> formulaScore performance Examples.measuredPage.
Proof. vm_compute. repeat split; congruence. Qed.

Section Aggregation.
Context {num : Type} `{Number num}.

Lemma fold_accumulate (pages : list PageData) (t : Totals) (tw : num) :
  let sumFrom (field : Scores -> Z) (start : num) :=
    fold_left nadd
      (map (fun x : num * num => nmul (fst x) (snd x))
         (map (fun p => (ofZ (field (scores p)), weight p)) pages)) start in
  fold_left accumulate pages (t, tw) =
  (mkTotals (sumFrom overall (tOverall t)) (sumFrom seoScore (tSeo t))
     (sumFrom performanceScore_ (tPerformance t))
     (sumFrom accessibilityScore (tAccessibility t))
     (sumFrom contentScore (tContent t)) (sumFrom uxDesignScore (tUxDesign t)),
   fold_left nadd
     (map snd (map (fun p => (ofZ (overall (scores p)), weight p)) pages)) tw).
Proof.
  revert t tw; induction pages as [|p pages IH]; intros t tw; simpl.
  - now destruct t.
  - rewrite IH; simpl. reflexivity.
Qed.

Lemma weights_independent (field : Scores -> Z) (pages : list PageData) :
  map snd (map (fun p => (ofZ (field (scores p)), weight p)) pages) = map weight pages.
Proof. rewrite map_map. reflexivity. Qed.


End Aggregation.


(** The seed page weighs three times a page at depth 2:
    (50 + 52/3) / (4/3) = 50.5, rounded to 51. *)
Example two_pages_scores :
  fst (calculateAuditScores (num := Q) Examples.twoPages) = mkScores 51 60 58 55 53 48.
Proof. vm_compute. reflexivity. Qed.

Lemma count_filter (P : Issue -> Prop) `{forall i, Decision (P i)} (l : list Issue) :
  Z.of_nat (length (filter P l)) = foldr (fun i n => if decide (P i) then 1 + n else n) 0 l.
Proof.
  induction l as [|i l IH]; simpl; [reflexivity|].
  rewrite filter_cons. destruct (decide (P i)); simpl; lia.
Qed.

Lemma count_flat_map (P : Issue -> Prop) `{forall i, Decision (P i)} (pages : list PageData) :
  Z.of_nat (length (filter P (flat_map issues pages))) = tally P pages.
Proof.
  induction pages as [|p pages IH]; simpl; [reflexivity|].
  rewrite filter_app, length_app, Nat2Z.inj_add, IH, count_filter. reflexivity.
Qed.

(** The summary of [calculateAuditScores] is the tally over the pages it
    was given. *)
Lemma summary_is_tally (pages : list PageData) :
  snd (calculateAuditScores (num := Q) pages) = tallyAll pages.
Proof.
  destruct pages as [|p pages]; [reflexivity|].
  unfold calculateAuditScores.
  destruct (fold_left accumulate (p :: pages) _) as [t tw]. cbn [snd].
  unfold summarize, tallyAll. now rewrite !count_flat_map.
Qed.

End ScoringFacts.

(** ** Crawling *)

Module CrawlerFacts.
Import JS Crawler.

Example isValidLink_examples :
  isValidLink "/about" = true /\ isValidLink "  MAILTO:someone@site.test" = false /\
  isValidLink "#top" = false /\ isValidLink "   " = false /\
  isValidLink "javascript:void(0)" = false /\ isValidLink "tel:+39" = false.
Proof. repeat split. Qed.

(** With [maxPages = 1] only the seed is fetched, whatever it links to. *)
Example one_page_crawl :
  crawlSite Examples.linkedWorld Examples.seed (Examples.options 1 2)
    = [Examples.linkedSeedResult].
Proof. vm_compute. reflexivity. Qed.

(** The page that the seed links to twice is queued, and fetched, once. *)
Example linked_crawl :
  crawlSite Examples.linkedWorld Examples.seed (Examples.options 5 2)
    = [Examples.linkedSeedResult;
       mkPageResult "http://site.test/a" Examples.homePage 200 1 [] [] None].
Proof. vm_compute. reflexivity. Qed.

Section Loop.
Variable w : World.
Variable domain : string.
Variable maxDepth : Z.

Local Abbreviation loop := (crawlLoop w domain maxDepth).
Local Abbreviation visit := (visit w domain maxDepth).

Lemma crawlLoop_nil b v r : loop b [] v r = r.
Proof. destruct b; reflexivity. Qed.

Lemma crawlLoop_O q v r : loop 0 q v r = r.
Proof. destruct q; reflexivity. Qed.

Lemma crawlLoop_skip b next q v r :
  qUrl next ∈ v -> loop (S b) (next :: q) v r = loop (S b) q v r.
Proof. intros Hin. simpl. now rewrite bool_decide_eq_true_2. Qed.

Lemma crawlLoop_visit b next q v r :
  qUrl next ∉ v ->
  loop (S b) (next :: q) v r =
  loop b (snd (visit next q ({[qUrl next]} ∪ v))) ({[qUrl next]} ∪ v)
    (r ++ [fst (visit next q ({[qUrl next]} ∪ v))]).
Proof.
  intros Hin. simpl. rewrite bool_decide_eq_false_2 by assumption.
  now destruct (Crawler.visit w domain maxDepth next q ({[qUrl next]} ∪ v)).
Qed.

(** A property of queue, visited set and results that every iteration
    preserves holds when the loop ends. *)
Lemma crawlLoop_invariant (I : list QueueItem -> gset string -> list PageResult -> Prop) :
  (forall next q v r, I (next :: q) v r -> qUrl next ∈ v -> I q v r) ->
  (forall next q v r, I (next :: q) v r -> qUrl next ∉ v ->
     I (snd (visit next q ({[qUrl next]} ∪ v))) ({[qUrl next]} ∪ v)
       (r ++ [fst (visit next q ({[qUrl next]} ∪ v))])) ->
  forall b q v r, I q v r -> exists q' v', I q' v' (loop b q v r).
Proof.
  intros Hskip Hvisit. induction b as [|b IHb]; intros q v r HI.
  - rewrite crawlLoop_O. eauto.
  - revert v r HI. induction q as [|next q IHq]; intros v r HI.
    + rewrite crawlLoop_nil. eauto.
    + destruct (decide (qUrl next ∈ v)) as [Hin|Hin].
      * rewrite crawlLoop_skip by assumption. apply IHq. eapply Hskip; eauto.
      * rewrite crawlLoop_visit by assumption. apply IHb. now apply Hvisit.
Qed.

(** Results are only ever appended. *)
Lemma crawlLoop_extends b q v r : r `prefix_of` loop b q v r.
Proof.
  destruct (crawlLoop_invariant (fun _ _ res => r `prefix_of` res)) with b q v r
    as (q' & v' & H); auto.
  intros next q0 v0 r0 H _. etrans; [exact H|]. now apply prefix_app_r.
Qed.

(** What [visit] records for a URL. *)
Lemma visit_result next q v :
  let r := fst (visit next q v) in
  prUrl r = qUrl next /\ prDepth r = qDepth next.
Proof.
  unfold Crawler.visit. destruct (httpGet w (qUrl next)); simpl; auto.
Qed.

End Loop.

(** C4, as the code has it: a URL whose fetch fails still gets a result,
    with empty markup and no links, and the crawl goes on with the rest of
    the queue. When the client throws, the status code is 0 and the error
    holds the message; when a response without HTML text arrives, the
    status code is the observed one and NO error is recorded. *)
Theorem fetch_failure_is_recorded (w : World) (domain : string) (maxDepth : Z)
    (budget : nat) (next : QueueItem) (queue : list QueueItem) (visited : gset string)
    (results : list PageResult) :
  qUrl next ∉ visited ->
  fetchFails w (qUrl next) ->
  exists r,
    crawlLoop w domain maxDepth (S budget) (next :: queue) visited results
      = crawlLoop w domain maxDepth budget queue ({[qUrl next]} ∪ visited) (results ++ [r]) /\
    r ∈ crawlLoop w domain maxDepth (S budget) (next :: queue) visited results /\
    prUrl r = qUrl next /\ prDepth r = qDepth next /\
    html r = EmptyString /\ internalLinks r = [] /\ externalLinks r = [] /\
    match httpGet w (qUrl next) with
    | FetchThrew message => prStatusCode r = 0 /\ error r = Some message
    | FetchResponse status _ _ => prStatusCode r = status /\ error r = None
    end.
Proof.
  intros Hnew Hfail.
  set (v' := {[qUrl next]} ∪ visited).
  assert (Hv : exists r,
    visit w domain maxDepth next queue v' = (r, queue) /\
    prUrl r = qUrl next /\ prDepth r = qDepth next /\
    html r = EmptyString /\ internalLinks r = [] /\ externalLinks r = [] /\
    match httpGet w (qUrl next) with
    | FetchThrew message => prStatusCode r = 0 /\ error r = Some message
    | FetchResponse status _ _ => prStatusCode r = status /\ error r = None
    end).
  { unfold fetchFails, notHtml in Hfail. unfold visit.
    destruct (httpGet w (qUrl next)) as [m|st ct data].
    - eexists; repeat split.
    - assert (E : match data with
                  | StringData body =>
                      if includes (default EmptyString ct) "text/html" then body
                      else EmptyString
                  | OtherData => EmptyString
                  end = EmptyString).
      { destruct data; [|reflexivity].
        destruct (includes (default EmptyString ct) "text/html"); [discriminate|reflexivity]. }
      rewrite E. simpl. eexists; repeat split. }
  destruct Hv as (r & Hvis & Hrest). exists r.
  assert (Heq : crawlLoop w domain maxDepth (S budget) (next :: queue) visited results
      = crawlLoop w domain maxDepth budget queue v' (results ++ [r])).
  { rewrite crawlLoop_visit by assumption. fold v'. now rewrite Hvis. }
  split; [exact Heq|]. split; [|exact Hrest].
  rewrite Heq. eapply elem_of_prefix; [|apply crawlLoop_extends].
  apply elem_of_app. right. apply list_elem_of_singleton. reflexivity.
Qed.

(** C4 as stated fails for a response that is not HTML: the result of a
    PDF document carries the observed status and no error. *)
Lemma non_html_result_has_no_error :
  httpGet Examples.pdfWorld Examples.seed
    = FetchResponse 200 (Some "application/pdf"%string) (StringData "%PDF-1.7") /\
  crawlSite Examples.pdfWorld Examples.seed (Examples.options 5 2)
    = [mkPageResult Examples.seed EmptyString 200 0 [] [] None] /\
  ~ (forall r, r ∈ crawlSite Examples.pdfWorld Examples.seed (Examples.options 5 2) ->
       error r <> None).
Proof.
  split; [reflexivity|]. split; [vm_compute; reflexivity|].
  intros H. apply (H (mkPageResult Examples.seed EmptyString 200 0 [] [] None)); [|reflexivity].
  vm_compute. apply list_elem_of_here.
Qed.

Lemma fetch_failure_is_recorded_witness :
  (Examples.seed ∉ (∅ : gset string)) /\
  fetchFails Examples.downWorld Examples.seed /\
  exists r,
    crawlLoop Examples.downWorld "site.test" 2 5 [mkQueueItem Examples.seed 0] ∅ []
      = crawlLoop Examples.downWorld "site.test" 2 4 [] ({[Examples.seed]} ∪ ∅) ([] ++ [r]) /\
    r ∈ crawlLoop Examples.downWorld "site.test" 2 5 [mkQueueItem Examples.seed 0] ∅ [] /\
    prUrl r = Examples.seed /\ prDepth r = 0 /\
    html r = EmptyString /\ internalLinks r = [] /\ externalLinks r = [] /\
    prStatusCode r = 0 /\ error r = Some "connect ECONNREFUSED"%string.
Proof.
  split; [apply not_elem_of_empty|]. split; [exact I|].
  apply (fetch_failure_is_recorded Examples.downWorld "site.test" 2 4
           (mkQueueItem Examples.seed 0) [] ∅ []); [apply not_elem_of_empty | exact I].
Defined.

Section Links.
Variable w : World.
Variable domain : string.
Variable maxDepth : Z.

Lemma eachAnchor_links currentUrl depth visited st href :
  let st' := eachAnchor w domain maxDepth currentUrl depth visited st href in
  let resolved := match resolveAnchor w currentUrl href with Some x => [x] | None => [] end in
  lInternal st' = lInternal st ++ internalOf domain resolved /\
  lExternal st' = lExternal st ++ externalOf domain resolved.
Proof.
  unfold eachAnchor, resolveAnchor, internalOf, externalOf.
  destruct href as [href|]; simpl; [|now rewrite !app_nil_r].
  destruct (truthy href); simpl; [|now rewrite !app_nil_r].
  destruct (isValidLink href); simpl; [|now rewrite !app_nil_r].
  destruct (parseURL w href (Some currentUrl)) as [u|]; simpl; [|now rewrite !app_nil_r].
  destruct (parseURL w (URL_href u) None) as [u'|]; simpl; [|now rewrite !app_nil_r].
  rewrite !filter_cons, !filter_nil; simpl.
  destruct (String.eqb_spec (URL_hostname u') domain) as [E|E]; simpl.
  - rewrite decide_True by assumption. rewrite decide_False by tauto.
    simpl. now rewrite app_nil_r.
  - rewrite decide_False by assumption. rewrite decide_True by assumption.
    simpl. now rewrite app_nil_r.
Qed.

Lemma fold_eachAnchor_links currentUrl depth visited hrefs st :
  let st' := fold_left (eachAnchor w domain maxDepth currentUrl depth visited) hrefs st in
  let resolved := omap (resolveAnchor w currentUrl) hrefs in
  lInternal st' = lInternal st ++ internalOf domain resolved /\
  lExternal st' = lExternal st ++ externalOf domain resolved.
Proof.
  revert st; induction hrefs as [|href hrefs IH]; intros st; simpl.
  - unfold internalOf, externalOf. now rewrite !app_nil_r.
  - destruct (IH (eachAnchor w domain maxDepth currentUrl depth visited st href)) as [Hi He].
    destruct (eachAnchor_links currentUrl depth visited st href) as [Hi1 He1].
    simpl in Hi, He, Hi1, He1. rewrite Hi, He, Hi1, He1, <- !app_assoc.
    unfold internalOf, externalOf.
    destruct (resolveAnchor w currentUrl href) as [x|]; simpl.
    + rewrite !(filter_cons _ x). split.
      * destruct (decide (x.2 = domain)); reflexivity.
      * destruct (decide (x.2 <> domain)); reflexivity.
    + split; reflexivity.
Qed.

Lemma visit_linksRecorded next q v :
  linksRecorded w domain (fst (visit w domain maxDepth next q v)).
Proof.
  unfold visit, linksRecorded, extracted.
  destruct (httpGet w (qUrl next)) as [m|st ct data]; simpl; [split; reflexivity|].
  set (body := match data with
               | StringData body =>
                   if includes (default EmptyString ct) "text/html" then body else EmptyString
               | OtherData => EmptyString
               end).
  destruct (truthy body && (200 <=? st) && (st <? 400)); simpl; [|split; reflexivity].
  apply (fold_eachAnchor_links (qUrl next) (qDepth next) v
           (anchorHrefs (dom w body)) (mkLinks [] [] q)).
Qed.

Lemma crawlLoop_linksRecorded b q v r :
  Forall (linksRecorded w domain) r ->
  Forall (linksRecorded w domain) (crawlLoop w domain maxDepth b q v r).
Proof.
  intros H.
  destruct (crawlLoop_invariant w domain maxDepth
              (fun _ _ res => Forall (linksRecorded w domain) res))
    with b q v r as (q' & v' & H'); auto.
  intros next q0 v0 r0 H0 _. apply Forall_app. split; [assumption|].
  constructor; [apply visit_linksRecorded | constructor].
Qed.

End Links.

Lemma NoDup_filter_fst (P : string * string -> Prop) `{forall x, Decision (P x)}
    (l : list (string * string)) :
  NoDup l.*1 -> NoDup (filter P l).*1.
Proof.
  intros Hnd. pose proof (sublist_filter P l) as Hs. apply (fmap_sublist fst) in Hs.
  exact (sublist_NoDup _ _ Hnd Hs).
Qed.

(** C5, as the code has it: a result of a successful HTML response with a
    status in 200..399 lists the resolved absolute URL of every valid anchor
    of the page, in document order and once per anchor, split by host name;
    a URL that several anchors resolve to is listed as often. The lists are
    duplicate-free when the anchors resolve to pairwise distinct URLs. *)
Theorem links_are_the_resolved_anchors (w : World) (startUrl : string)
    (options : CrawlOptions) (u : ParsedURL) (r : PageResult) :
  parseURL w startUrl None = Some u ->
  r ∈ crawlSite w startUrl options ->
  extracted r = true ->
  let resolved := resolvedAnchors w (prUrl r) (html r) in
  internalLinks r = internalOf (URL_hostname u) resolved /\
  externalLinks r = externalOf (URL_hostname u) resolved /\
  (NoDup resolved.*1 -> NoDup (internalLinks r) /\ NoDup (externalLinks r)).
Proof.
  intros Hu Hin Hex. unfold crawlSite in Hin. rewrite Hu in Hin.
  pose proof (crawlLoop_linksRecorded w (URL_hostname u)
                (default DEFAULT_maxDepth (maxDepth options))
                (Z.to_nat (default DEFAULT_maxPages (maxPages options)))
                [mkQueueItem startUrl 0] ∅ [] (Forall_nil_2 _)) as Hall.
  rewrite Forall_forall in Hall. specialize (Hall r Hin).
  unfold linksRecorded in Hall. rewrite Hex in Hall. destruct Hall as [Hi He].
  simpl. split; [exact Hi|]. split; [exact He|].
  intros Hnd. rewrite Hi, He. unfold internalOf, externalOf.
  split; apply NoDup_filter_fst; exact Hnd.
Qed.

(** C5 as stated fails: two anchors to the same page yield the URL twice
    in [internalLinks]. *)
Lemma duplicate_anchor_is_listed_twice :
  Examples.linkedSeedResult ∈
    crawlSite Examples.linkedWorld Examples.seed (Examples.options 5 2) /\
  extracted Examples.linkedSeedResult = true /\
  ~ NoDup (internalLinks Examples.linkedSeedResult).
Proof.
  split; [vm_compute; apply list_elem_of_here|]. split; [reflexivity|].
  simpl. rewrite NoDup_cons. intros [Hn _]. apply Hn, list_elem_of_here.
Qed.

Lemma links_are_the_resolved_anchors_witness :
  parseURL Examples.linkedWorld Examples.seed None
    = Some (mkParsedURL Examples.seed "site.test") /\
  Examples.linkedSeedResult ∈
    crawlSite Examples.linkedWorld Examples.seed (Examples.options 5 2) /\
  extracted Examples.linkedSeedResult = true /\
  internalLinks Examples.linkedSeedResult
    = internalOf "site.test"
        (resolvedAnchors Examples.linkedWorld Examples.seed Examples.twiceLinked) /\
  externalLinks Examples.linkedSeedResult
    = externalOf "site.test"
        (resolvedAnchors Examples.linkedWorld Examples.seed Examples.twiceLinked).
Proof.
  assert (Hin : Examples.linkedSeedResult ∈
                  crawlSite Examples.linkedWorld Examples.seed (Examples.options 5 2)).
  { vm_compute. apply list_elem_of_here. }
  split; [reflexivity|]. split; [exact Hin|]. split; [reflexivity|].
  destruct (links_are_the_resolved_anchors Examples.linkedWorld Examples.seed
              (Examples.options 5 2) (mkParsedURL Examples.seed "site.test")
              Examples.linkedSeedResult eq_refl Hin eq_refl) as (Hi & He & _).
  split; [exact Hi | exact He].
Defined.

Section Depths.
Variable w : World.
Variable domain : string.
Variable maxDepth : Z.
Variable startUrl : string.

Lemma hasParent_grows results bound bound' u d r :
  (bound <= bound')%nat -> hasParent maxDepth results bound u d ->
  hasParent maxDepth (results ++ [r]) bound' u d.
Proof.
  intros Hle (i & p & Hi & Hp & Hrest). exists i, p.
  split; [lia|]. split; [|exact Hrest]. now apply lookup_app_l_Some.
Qed.

Lemma eachAnchor_pushedFrom queue0 currentUrl depth visited st href :
  pushedFrom maxDepth queue0 depth st ->
  pushedFrom maxDepth queue0 depth
    (eachAnchor w domain maxDepth currentUrl depth visited st href).
Proof.
  intros J. unfold eachAnchor.
  destruct href as [href|]; [|exact J].
  destruct (negb (truthy href) || negb (isValidLink href)); [exact J|].
  destruct (parseURL w href (Some currentUrl)) as [u|]; [|exact J].
  destruct (parseURL w (URL_href u) None) as [u'|]; [|exact J].
  destruct (String.eqb (URL_hostname u') domain); [|exact J].
  intros item Hitem. simpl in *.
  assert (Hold : item ∈ lQueue st ->
                 item ∈ queue0 \/
                 qUrl item ∈ lInternal st ++ [URL_href u] /\
                 qDepth item = depth + 1 /\ depth < maxDepth).
  { intros H. destruct (J item H) as [|(Hu & Hd)]; [now left|right].
    split; [|exact Hd]. apply elem_of_app. now left. }
  destruct (depth <? maxDepth) eqn:Hlt; simpl in Hitem; [|now apply Hold].
  destruct (negb (bool_decide (URL_href u ∈ visited)) &&
            negb (existsb (fun item0 => String.eqb (qUrl item0) (URL_href u)) (lQueue st)));
    [|now apply Hold].
  apply elem_of_app in Hitem. destruct Hitem as [H|H]; [now apply Hold|].
  apply list_elem_of_singleton in H. subst item. right. simpl.
  split; [|split; [reflexivity | now apply Z.ltb_lt]].
  apply elem_of_app. right. apply list_elem_of_here.
Qed.

Lemma fold_eachAnchor_pushedFrom queue0 currentUrl depth visited hrefs st :
  pushedFrom maxDepth queue0 depth st ->
  pushedFrom maxDepth queue0 depth
    (fold_left (eachAnchor w domain maxDepth currentUrl depth visited) hrefs st).
Proof.
  revert st. induction hrefs as [|href hrefs IH]; intros st J; simpl; [exact J|].
  apply IH. now apply eachAnchor_pushedFrom.
Qed.

Lemma visit_queue next q v item :
  item ∈ snd (visit w domain maxDepth next q v) ->
  item ∈ q \/
  (qUrl item ∈ internalLinks (fst (visit w domain maxDepth next q v)) /\
   qDepth item = qDepth next + 1 /\ qDepth next < maxDepth).
Proof.
  unfold visit. destruct (httpGet w (qUrl next)) as [m|st ct data]; simpl; [now left|].
  match goal with |- context [if ?c then _ else _] => destruct c end; simpl; [|now left].
  apply fold_eachAnchor_pushedFrom. intros it Hit. now left.
Qed.

Lemma depthInv_visit next q v results :
  depthInv maxDepth startUrl (next :: q) results ->
  depthInv maxDepth startUrl (snd (visit w domain maxDepth next q v))
    (results ++ [fst (visit w domain maxDepth next q v)]).
Proof.
  intros [Hres Hq].
  destruct (visit_result w domain maxDepth next q v) as [Hu Hd].
  set (r := fst (visit w domain maxDepth next q v)) in *.
  split.
  - intros j r0 Hj. apply lookup_app_Some in Hj.
    destruct Hj as [Hj|[Hlen Hj]].
    + destruct (Hres j r0 Hj) as [Hs|Hp]; [now left|right].
      eapply hasParent_grows; [|exact Hp]. lia.
    + destruct (j - length results)%nat as [|k] eqn:Hk; [|now destruct k].
      simpl in Hj. injection Hj as <-. rewrite Hu, Hd.
      destruct (Hq next (list_elem_of_here _ _)) as [Hs|Hp]; [now left|right].
      eapply hasParent_grows; [|exact Hp]. lia.
  - intros item Hitem. rewrite length_app; simpl.
    destruct (visit_queue next q v item Hitem) as [Hold|(Hlink & Hdep & Hlt)].
    + destruct (Hq item (list_elem_of_further _ _ _ Hold)) as [Hs|Hp]; [now left|right].
      eapply hasParent_grows; [|exact Hp]. lia.
    + right. exists (length results), r. split; [lia|].
      split; [now apply list_lookup_middle|].
      fold r in Hlink. rewrite Hd. auto.
Qed.

Lemma crawlLoop_depthInv b q v results :
  depthInv maxDepth startUrl q results ->
  exists q', depthInv maxDepth startUrl q' (crawlLoop w domain maxDepth b q v results).
Proof.
  intros H.
  destruct (crawlLoop_invariant w domain maxDepth (fun q _ res => depthInv maxDepth startUrl q res))
    with b q v results as (q' & _ & H'); eauto.
  - intros next q0 _ r0 [Hres Hq] _. split; [exact Hres|].
    intros item Hitem. apply Hq. now apply list_elem_of_further.
  - intros next q0 v0 r0 H0 _. now apply depthInv_visit.
Qed.

(** A page at or beyond the depth limit enqueues nothing. *)
Lemma visit_at_limit next q v :
  maxDepth <= qDepth next -> snd (visit w domain maxDepth next q v) = q.
Proof.
  intros Hge. unfold visit.
  destruct (httpGet w (qUrl next)) as [m|sc ct data]; simpl; [reflexivity|].
  match goal with |- context [if ?c then _ else _] => destruct c end; simpl; [|reflexivity].
  generalize (anchorHrefs (dom w match data with
                                 | StringData body =>
                                     if includes (default EmptyString ct) "text/html"
                                     then body else EmptyString
                                 | OtherData => EmptyString
                                 end)).
  intros hrefs.
  assert (G : forall st, lQueue (fold_left
                (eachAnchor w domain maxDepth (qUrl next) (qDepth next) v) hrefs st)
              = lQueue st).
  { induction hrefs as [|href hrefs IH]; intros st; simpl; [reflexivity|].
    rewrite IH. unfold eachAnchor.
    destruct href as [href|]; [|reflexivity].
    destruct (negb (truthy href) || negb (isValidLink href)); [reflexivity|].
    destruct (parseURL w href (Some (qUrl next))) as [u|]; [|reflexivity].
    destruct (parseURL w (URL_href u) None) as [u'|]; [|reflexivity].
    destruct (String.eqb (URL_hostname u') domain); [|reflexivity].
    simpl. replace (qDepth next <? maxDepth) with false; [reflexivity|].
    symmetry. apply Z.ltb_ge. exact Hge. }
  apply (G (mkLinks [] [] q)).
Qed.

End Depths.




End CrawlerFacts.

(** ** Analysis *)

Module AnalyzerFacts.
Import JS Analyzers.

(** A metric above a non-negative limit is truthy. *)
Lemma truthy_above (v c : Q) : (0 <= c)%Q -> truthyQ v && Qgtb v c = Qgtb v c.
Proof.
  intros Hc. destruct (Qgtb v c) eqn:G; [|apply andb_false_r].
  rewrite andb_true_r. unfold truthyQ. destruct (Qeq_bool v 0) eqn:E; [|reflexivity].
  apply Qeq_bool_iff in E. unfold Qgtb in G. apply negb_true_iff in G.
  assert (T : Qle_bool v c = true) by (apply Qle_bool_iff; now rewrite E).
  congruence.
Qed.

(** C6, as the code has it: with the report of the service at hand the
    analyzer raises exactly these issues, in this order: a critical one when
    the largest contentful paint exceeds 4 s, a major one when the total
    blocking time exceeds 600 ms, a critical one when the score is below 50.
    A largest contentful paint between 2.5 s and 4 s and the layout shift
    raise nothing. *)
Theorem performance_issues_when_measured (w : World) (url apiKey : string)
    (lighthouse : Lighthouse) :
  PAGESPEED_API_KEY w = Some apiKey ->
  truthy apiKey = true ->
  runPagespeed w url apiKey = PagespeedResponse lighthouse ->
  map (fun i => (category i, code i, severity i)) (snd (analyzePerformance w url)) =
    (if exceeds (lhLargestContentfulPaint lighthouse) 4000
     then [(performance, "SLOW_LCP_MOBILE"%string, critical)] else []) ++
    (if exceeds (lhTotalBlockingTime lighthouse) 600
     then [(performance, "HIGH_TBT"%string, major)] else []) ++
    (if reportedScore lighthouse <? 50
     then [(performance, "POOR_PERFORMANCE_SCORE"%string, critical)] else []).
Proof.
  intros Hkey Htruthy Hrun. unfold analyzePerformance. rewrite Hkey.
  destruct apiKey as [|c key]; [discriminate|]. rewrite Hrun.
  fold (reportedScore lighthouse). unfold exceeds, pushIf. cbn [snd].
  destruct (lhLargestContentfulPaint lighthouse) as [lcp|],
           (lhTotalBlockingTime lighthouse) as [tbt|];
    rewrite ?truthy_above by discriminate;
    repeat match goal with |- context [if ?c then _ else _] => destruct c end;
    reflexivity.
Qed.

Lemma performance_issues_when_measured_witness :
  PAGESPEED_API_KEY Examples.sluggishWorld = Some "key"%string /\
  truthy "key" = true /\
  runPagespeed Examples.sluggishWorld Examples.seed "key"
    = PagespeedResponse
        (mkLighthouse (Some (9 # 10)%Q) (Some 1200%Q) (Some 3000%Q) (Some 100%Q)
           (Some (9 # 10)%Q)) /\
  map (fun i => (category i, code i, severity i))
      (snd (analyzePerformance Examples.sluggishWorld Examples.seed)) = [].
Proof.
  split; [reflexivity|]. split; [reflexivity|]. split; [reflexivity|].
  apply (performance_issues_when_measured Examples.sluggishWorld Examples.seed "key"
           (mkLighthouse (Some (9 # 10)%Q) (Some 1200%Q) (Some 3000%Q) (Some 100%Q)
              (Some (9 # 10)%Q))); reflexivity.
Defined.

(** C6 as stated fails: a largest contentful paint of 3 s and a layout shift
    of 0.9 are reported, and no issue is raised. *)
Lemma slow_paint_and_layout_shift_raise_nothing :
  (fst (analyzePerformance Examples.sluggishWorld Examples.seed)
     ≫= largestContentfulPaintMs) = Some 3000%Q /\
  (fst (analyzePerformance Examples.sluggishWorld Examples.seed)
     ≫= cumulativeLayoutShift) = Some (9 # 10)%Q /\
  snd (analyzePerformance Examples.sluggishWorld Examples.seed) = [].
Proof. vm_compute. repeat split. Qed.

(** The markup analyzers raise issues of their own categories and codes. *)
Ltac own_issues :=
  unfold pushIf; repeat case_match; simpl;
  repeat (constructor; [split; discriminate|]); constructor.

Lemma analyzeSeo_unrelated w html url :
  Forall unrelated (snd (analyzeSeo w html url)).
Proof. unfold analyzeSeo. cbn [snd]. own_issues. Qed.

Lemma analyzeAccessibility_unrelated w html url :
  Forall unrelated (snd (analyzeAccessibility w html url)).
Proof. unfold analyzeAccessibility. cbn [snd]. own_issues. Qed.

Lemma analyzeDesignUx_unrelated w html url :
  Forall unrelated (snd (analyzeDesignUx w html url)).
Proof. unfold analyzeDesignUx. cbn [snd]. own_issues. Qed.

Lemma analyzeContentStructure_unrelated w page :
  Forall unrelated (snd (analyzeContentStructure w page)).
Proof.
  unfold analyzeContentStructure. destruct (prDepth page <=? 1); cbn [snd].
  - unfold pushIf. destruct (0 <? length _)%nat; simpl;
      repeat (constructor; [split; discriminate|]); constructor.
  - constructor.
Qed.

End AnalyzerFacts.

(** ** Orchestration *)

Module RunnerFacts.
Import JS Analyzers Runner.

Section Selection.
Variable P : Issue -> Prop.
Context `{forall i, Decision (P i)}.

Lemma issuesWhere_app (l1 l2 : list Issue) :
  issuesWhere P (l1 ++ l2) = issuesWhere P l1 ++ issuesWhere P l2.
Proof. unfold issuesWhere. now rewrite filter_app, map_app. Qed.

Lemma issuesWhere_none (l : list Issue) :
  Forall (fun i => ~ P i) l -> issuesWhere P l = [].
Proof.
  intros Hall. unfold issuesWhere. induction Hall as [|i l Hi _ IH]; [reflexivity|].
  rewrite filter_cons. destruct (decide (P i)); [contradiction | exact IH].
Qed.

(** Assigning identifiers does not change what the issues are. *)
Lemma issuesWhere_imap (f : nat -> Issue -> Issue) (l : list Issue) :
  (forall n i, describe (f n i) = describe i) ->
  (forall n i, P (f n i) <-> P i) ->
  issuesWhere P (imap f l) = issuesWhere P l.
Proof.
  revert f. induction l as [|i l IH]; intros f Hd HP; [reflexivity|].
  unfold issuesWhere in *. simpl. rewrite !filter_cons.
  destruct (decide (P (f 0%nat i))) as [Hf|Hf], (decide (P i)) as [Hi|Hi]; simpl.
  - rewrite Hd. f_equal. apply IH; intros idx x; [apply Hd | apply HP].
  - apply HP in Hf. contradiction.
  - apply (HP 0%nat) in Hi. contradiction.
  - apply IH; intros idx x; [apply Hd | apply HP].
Qed.

End Selection.

Lemma categoryPenalty_issuesWhere cat (l : list Issue) :
  Scoring.categoryPenalty cat l =
  foldr (fun t n => Scoring.penaltyPoints (snd (fst t)) + n) 0
    (issuesWhere (fun i => category i = cat) l).
Proof.
  unfold Scoring.categoryPenalty, issuesWhere. induction l as [|i l IH]; [reflexivity|].
  simpl. rewrite filter_cons. destruct (decide (category i = cat)) as [Hc|Hc].
  - rewrite bool_decide_eq_true_2 by assumption. simpl. now rewrite IH.
  - rewrite bool_decide_eq_false_2 by assumption. exact IH.
Qed.

Section Pages.
Variable w : World.
Variable inboundMap : gmap string Z.
Variable k : nat.
Variable raw : PageResult.

Lemma analyzeOne_reachable :
  truthy_opt (error raw) = false ->
  analyzeOne w inboundMap k raw = analyzeReachable w inboundMap k raw.
Proof.
  unfold analyzeOne. destruct (error raw) as [[|c s]|]; simpl; congruence.
Qed.

(** The scores of a page are those of the page as it is stored. *)
Lemma analyzeReachable_scores :
  scores (analyzeReachable w inboundMap k raw)
  = Scoring.calculatePageScores (analyzeReachable w inboundMap k raw).
Proof. reflexivity. Qed.

Lemma analyzeReachable_performanceData :
  performanceData (analyzeReachable w inboundMap k raw)
  = aoPerformanceData (analyzePage w raw).
Proof. reflexivity. Qed.

(** A selection by category or by code that leaves out the unrelated
    issues. *)
Variable P : Issue -> Prop.
Context `{forall i, Decision (P i)}.
Hypothesis P_describe : forall i j, describe i = describe j -> (P i <-> P j).
Hypothesis P_unrelated : forall i, unrelated i -> ~ P i.

Lemma unrelated_none (l : list Issue) : Forall unrelated l -> issuesWhere P l = [].
Proof.
  intros Hall. apply issuesWhere_none. eapply Forall_impl; [exact Hall|].
  exact P_unrelated.
Qed.

(** The orchestrator adds identifiers and, at most, an orphan issue. *)
Lemma analyzeReachable_issuesWhere :
  issuesWhere P (issues (analyzeReachable w inboundMap k raw))
  = issuesWhere P (aoIssues (analyzePage w raw)).
Proof.
  unfold analyzeReachable. cbn [issues withScores withIssues].
  rewrite issuesWhere_imap;
    [| intros; reflexivity | intros; apply P_describe; reflexivity].
  unfold applyContentGraphIssues. cbn [issues depth url].
  destruct ((default 0 (inboundMap !! prUrl raw) =? 0) && (0 <? prDepth raw));
    [|reflexivity].
  rewrite issuesWhere_app, (unrelated_none [_]), app_nil_r; [reflexivity|].
  constructor; [split; discriminate | constructor].
Qed.

(** On the seed page the performance snapshot is that of the performance
    analyzer, and so is the selection. *)
Lemma analyzePage_seed :
  truthy (html raw) = true -> prDepth raw = 0 ->
  aoPerformanceData (analyzePage w raw) = fst (analyzePerformance w (prUrl raw)) /\
  issuesWhere P (aoIssues (analyzePage w raw))
  = issuesWhere P (snd (analyzePerformance w (prUrl raw))).
Proof.
  intros Ht Hd. unfold analyzePage. rewrite Ht, Hd, Z.eqb_refl. cbn [negb].
  destruct (analyzePerformance w (prUrl raw)) as [pd pi].
  cbn [aoPerformanceData aoIssues fst snd]. split; [reflexivity|].
  rewrite !issuesWhere_app.
  rewrite (unrelated_none (snd (analyzeSeo w (html raw) (prUrl raw))))
    by apply AnalyzerFacts.analyzeSeo_unrelated.
  rewrite (unrelated_none (snd (analyzeAccessibility w (html raw) (prUrl raw))))
    by apply AnalyzerFacts.analyzeAccessibility_unrelated.
  rewrite (unrelated_none (snd (analyzeContentStructure w raw)))
    by apply AnalyzerFacts.analyzeContentStructure_unrelated.
  rewrite (unrelated_none (snd (analyzeDesignUx w (html raw) (prUrl raw))))
    by apply AnalyzerFacts.analyzeDesignUx_unrelated.
  cbn [app]. now rewrite app_nil_r.
Qed.

Lemma seed_selection :
  truthy_opt (error raw) = false -> truthy (html raw) = true -> prDepth raw = 0 ->
  issuesWhere P (issues (analyzeOne w inboundMap k raw))
  = issuesWhere P (snd (analyzePerformance w (prUrl raw))).
Proof.
  intros He Ht Hd. rewrite analyzeOne_reachable by assumption.
  rewrite analyzeReachable_issuesWhere. now apply analyzePage_seed.
Qed.

End Pages.

(** A page without an external score and with one minor performance issue
    scores 80 - 7. *)
Lemma one_minor_issue_scores_73 (page : PageData) c m :
  performanceData page ≫= performanceScore = None ->
  issuesWhere (fun i => category i = performance) (issues page) = [(performance, c, minor, m)] ->
  performanceScore_ (Scoring.calculatePageScores page) = 73.
Proof.
  intros Hn Hi. unfold Scoring.calculatePageScores. cbn [performanceScore_].
  rewrite ScoringFacts.performance_score_formula, Hn.
  unfold Scoring.formulaScore, Scoring.categoryBase.
  rewrite Hn, categoryPenalty_issuesWhere, Hi. reflexivity.
Qed.

(** What the analyzer returns without a key and when the call throws. *)
Lemma analyzePerformance_unconfigured (w : World) (url : string) :
  truthy_opt (PAGESPEED_API_KEY w) = false ->
  analyzePerformance w url =
    (None, [createIssue performance "PERFORMANCE_DATA_UNAVAILABLE" minor
              "PageSpeed API key not configured; using placeholder score" url]).
Proof.
  intros Hkey. unfold analyzePerformance.
  destruct (PAGESPEED_API_KEY w) as [[|c s]|]; [reflexivity | discriminate | reflexivity].
Qed.

Lemma analyzePerformance_threw (w : World) (url apiKey : string) (message : option string) :
  PAGESPEED_API_KEY w = Some apiKey -> truthy apiKey = true ->
  runPagespeed w url apiKey = PagespeedThrew message ->
  analyzePerformance w url =
    (Some (mkPerformanceData None None None None None None message),
     [createIssue performance "PERFORMANCE_DATA_UNAVAILABLE" minor
        "Failed to retrieve PageSpeed data" url]).
Proof.
  intros Hkey Ht Hrun. unfold analyzePerformance. rewrite Hkey.
  destruct apiKey as [|c s]; [discriminate|]. now rewrite Hrun.
Qed.

Lemma by_category_describe cat (i j : Issue) :
  describe i = describe j -> (category i = cat <-> category j = cat).
Proof. unfold describe. intros [= -> _ _ _]. reflexivity. Qed.

Lemma by_code_describe c (i j : Issue) :
  describe i = describe j -> (code i = c <-> code j = c).
Proof. unfold describe. intros [= _ -> _ _]. reflexivity. Qed.

Lemma unrelated_not_performance (i : Issue) : unrelated i -> category i <> performance.
Proof. now intros [Hc _]. Qed.

Lemma unrelated_not_unavailable (i : Issue) :
  unrelated i -> code i <> "PERFORMANCE_DATA_UNAVAILABLE"%string.
Proof. now intros [_ Hc]. Qed.




(** C10: a result without an error and without markup is analyzed, not
    given the zero-score record: the analysis is the single critical content
    issue PAGE_UNREACHABLE with no snapshot, and the page scores 100 for seo,
    accessibility and uxDesign and 80 for performance. *)
Theorem empty_markup_page_scores (w : World) (inboundMap : gmap string Z) (k : nat)
    (raw : PageResult) :
  truthy_opt (error raw) = false ->
  html raw = EmptyString ->
  analyzePage w raw
    = mkAnalyzerOutput
        [createIssue content "PAGE_UNREACHABLE" critical "Page could not be retrieved"
           (prUrl raw)]
        None None None None None /\
  let page := analyzeOne w inboundMap k raw in
  seoData page = None /\ performanceData page = None /\ accessibilityData page = None /\
  contentData page = None /\ designUxData page = None /\
  seoScore (scores page) = 100 /\
  accessibilityScore (scores page) = 100 /\
  uxDesignScore (scores page) = 100 /\
  performanceScore_ (scores page) = 80 /\
  scores page <> zeroScores.
Proof.
  intros He Hh.
  assert (Hap : analyzePage w raw
    = mkAnalyzerOutput
        [createIssue content "PAGE_UNREACHABLE" critical "Page could not be retrieved"
           (prUrl raw)]
        None None None None None).
  { unfold analyzePage. rewrite Hh. reflexivity. }
  split; [exact Hap|]. intros page. unfold page.
  rewrite analyzeOne_reachable by assumption.
  unfold analyzeReachable. rewrite Hap.
  unfold applyContentGraphIssues. cbn [issues depth url aoIssues pageId].
  destruct ((default 0 (inboundMap !! prUrl raw) =? 0) && (0 <? prDepth raw));
    repeat split; try reflexivity; discriminate.
Qed.

Lemma empty_markup_page_scores_witness :
  truthy_opt (error Examples.pdfResult) = false /\
  html Examples.pdfResult = EmptyString /\
  seoScore (scores (analyzeOne Examples.pdfWorld ∅ 0 Examples.pdfResult)) = 100 /\
  accessibilityScore (scores (analyzeOne Examples.pdfWorld ∅ 0 Examples.pdfResult)) = 100 /\
  uxDesignScore (scores (analyzeOne Examples.pdfWorld ∅ 0 Examples.pdfResult)) = 100 /\
  performanceScore_ (scores (analyzeOne Examples.pdfWorld ∅ 0 Examples.pdfResult)) = 80.
Proof.
  split; [reflexivity|]. split; [reflexivity|].
  destruct (empty_markup_page_scores Examples.pdfWorld ∅ 0 Examples.pdfResult
              eq_refl eq_refl) as (_ & _ & _ & _ & _ & _ & Hs & Ha & Hu & Hp & _).
  repeat split; assumption.
Defined.

Lemma get_update (audits : list Audit) (id : string) (a : Audit) (u : Storage.AuditUpdate) :
  Storage.get audits id = Some a ->
  Storage.get (Storage.update audits id u) id = Some (Storage.merge a u).
Proof.
  unfold Storage.get. induction audits as [|a0 audits IH]; simpl; [discriminate|].
  destruct (String.eqb (auditId a0) id) eqn:E; simpl.
  - intros [= ->]. now rewrite E.
  - rewrite E. exact IH.
Qed.

(** C8: when the crawl returns no page the audit goes to Running and then
    to Failed with [completedAt] stamped; its scores, summary, pages and
    report are left as they were, so the pages of a freshly created audit
    stay empty. *)
Theorem empty_crawl_fails_audit (w : World) (id : string) (maxPages : Z)
    (audits : list Audit) (a : Audit) :
  Storage.get audits id = Some a ->
  Crawler.crawlSite w (auditUrl a) (Crawler.mkCrawlOptions (Some maxPages) (Some 2) None) = [] ->
  exists running failed,
    startAudit w id maxPages audits = [running; failed] /\
    Storage.get running id =
      Some (mkAudit (auditId a) (auditUrl a) RUNNING (createdAt a) (completedAt a)
              (auditScores a) (issuesSummary a) (pages a) (reportMarkdown a)) /\
    Storage.get failed id =
      Some (mkAudit (auditId a) (auditUrl a) FAILED (createdAt a) (Some (now w))
              (auditScores a) (issuesSummary a) (pages a) (reportMarkdown a)) /\
    (pages a = [] -> forall a', Storage.get failed id = Some a' -> pages a' = []).
Proof.
  intros Hget Hcrawl. unfold startAudit. rewrite Hget, Hcrawl. cbn [length Nat.eqb].
  eexists _, _. split; [reflexivity|].
  pose proof (get_update audits id a
                (Storage.mkAuditUpdate (Some RUNNING) None None None None None) Hget) as Hrun.
  pose proof (get_update _ id _
                (Storage.mkAuditUpdate (Some FAILED) (Some (now w)) None None None None) Hrun)
    as Hfail.
  split; [exact Hrun|]. split; [exact Hfail|].
  intros Hp a' Ha'. rewrite Hfail in Ha'. injection Ha' as <-. exact Hp.
Qed.

Lemma empty_crawl_fails_audit_witness :
  Storage.get [Examples.queuedAudit "nonsense"] "audit-1"
    = Some (Examples.queuedAudit "nonsense") /\
  Crawler.crawlSite Examples.linkedWorld "nonsense"
    (Crawler.mkCrawlOptions (Some 5) (Some 2) None) = [] /\
  exists running failed,
    startAudit Examples.linkedWorld "audit-1" 5 [Examples.queuedAudit "nonsense"]
      = [running; failed] /\
    Storage.get running "audit-1" =
      Some (mkAudit "audit-1" "nonsense" RUNNING "2024-01-01T00:00:00.000Z" None
              zeroScores zeroSummary [] None) /\
    Storage.get failed "audit-1" =
      Some (mkAudit "audit-1" "nonsense" FAILED "2024-01-01T00:00:00.000Z"
              (Some "2024-01-01T00:00:00.000Z"%string) zeroScores zeroSummary [] None).
Proof.
  split; [reflexivity|]. split; [reflexivity|].
  destruct (empty_crawl_fails_audit Examples.linkedWorld "audit-1" 5
              [Examples.queuedAudit "nonsense"] (Examples.queuedAudit "nonsense")
              eq_refl eq_refl) as (running & failed & Ht & Hr & Hf & _).
  exists running, failed. repeat split; assumption.
Defined.

(** C9: in every state of the store that the orchestrator writes, the
    audit either still has the summary and the pages it had before, or it is
    Completed and each count of its summary, by severity and by category, is
    the count obtained by enumerating the issues of its stored pages. *)
Theorem persisted_summary_is_tally (w : World) (id : string) (maxPages : Z)
    (audits : list Audit) (a : Audit) (db : list Audit) :
  Storage.get audits id = Some a ->
  db ∈ startAudit w id maxPages audits ->
  exists a', Storage.get db id = Some a' /\
    ((status a' <> COMPLETED /\ issuesSummary a' = issuesSummary a /\ pages a' = pages a) \/
     (status a' = COMPLETED /\ issuesSummary a' = Scoring.tallyAll (pages a'))).
Proof.
  intros Hget Hdb. unfold startAudit in Hdb. rewrite Hget in Hdb.
  pose proof (get_update audits id a
                (Storage.mkAuditUpdate (Some RUNNING) None None None None None) Hget) as Hrun.
  set (running := Storage.update audits id
                    (Storage.mkAuditUpdate (Some RUNNING) None None None None None)) in *.
  assert (Hrunning : exists a', Storage.get running id = Some a' /\
    ((status a' <> COMPLETED /\ issuesSummary a' = issuesSummary a /\ pages a' = pages a) \/
     (status a' = COMPLETED /\ issuesSummary a' = Scoring.tallyAll (pages a')))).
  { eexists. split; [exact Hrun|]. left. repeat split. discriminate. }
  destruct (length _ =? 0)%nat.
  - apply elem_of_cons in Hdb. destruct Hdb as [->|Hdb]; [exact Hrunning|].
    apply list_elem_of_singleton in Hdb. subst db.
    eexists. split; [apply get_update; exact Hrun|]. left. repeat split. discriminate.
  - set (analyzedPages := imap _ _) in *.
    pose proof (ScoringFacts.summary_is_tally analyzedPages) as Htally.
    destruct (Scoring.calculateAuditScores analyzedPages) as [sc summary].
    apply elem_of_cons in Hdb. destruct Hdb as [->|Hdb]; [exact Hrunning|].
    apply list_elem_of_singleton in Hdb. subst db.
    eexists. split; [apply get_update; exact Hrun|]. right. split; [reflexivity|].
    exact Htally.
Qed.

Lemma persisted_summary_is_tally_witness :
  Storage.get [Examples.queuedAudit Examples.seed] "audit-1"
    = Some (Examples.queuedAudit Examples.seed) /\
  exists db a',
    db ∈ startAudit Examples.linkedWorld "audit-1" 5 [Examples.queuedAudit Examples.seed] /\
    Storage.get db "audit-1" = Some a' /\
    status a' = COMPLETED /\ issuesSummary a' = Scoring.tallyAll (pages a').
Proof.
  split; [reflexivity|].
  assert (Hlast : exists db,
    startAudit Examples.linkedWorld "audit-1" 5 [Examples.queuedAudit Examples.seed] !! 1%nat
      = Some db /\
    (status <$> Storage.get db "audit-1") = Some COMPLETED).
  { eexists. split; [reflexivity | vm_compute; reflexivity]. }
  destruct Hlast as (db & Hdb & Hst). exists db.
  assert (Hin : db ∈ startAudit Examples.linkedWorld "audit-1" 5
                       [Examples.queuedAudit Examples.seed])
    by (eapply list_elem_of_lookup_2; exact Hdb).
  destruct (persisted_summary_is_tally Examples.linkedWorld "audit-1" 5
              [Examples.queuedAudit Examples.seed] (Examples.queuedAudit Examples.seed) db
              eq_refl Hin) as (a' & Ha' & [(Hn & _)|(Hc & Ht)]).
  - rewrite Ha' in Hst. simpl in Hst. congruence.
  - exists a'. repeat split; assumption.
Defined.

(** The audit of [linkedWorld]: two pages, ten issues on the seed page and
    eight on the page it links to. *)
Example linked_audit_summary :
  (issuesSummary <$>
     (last (startAudit Examples.linkedWorld "audit-1" 5 [Examples.queuedAudit Examples.seed])
        ≫= fun db => Storage.get db "audit-1"))
  = Some (mkIssuesSummary 3 11 4 7 1 4 0 6).
Proof. vm_compute. reflexivity. Qed.

End RunnerFacts.

(** ** More on crawling: budget, uniqueness, coverage, order *)

Module CrawlProperties.
Import JS Crawler.

Section Run.
Variable w : World.
Variable domain : string.
Variable maxDepth : Z.

(** The invariant rule of the loop with the budget in view: when the loop
    ends, the queue is empty or the budget is spent. *)
Lemma crawlLoop_run
    (I : nat -> list QueueItem -> gset string -> list PageResult -> Prop) :
  (forall b next q v r, I (S b) (next :: q) v r -> qUrl next ∈ v -> I (S b) q v r) ->
  (forall b next q v r, I (S b) (next :: q) v r -> qUrl next ∉ v ->
     I b (snd (visit w domain maxDepth next q ({[qUrl next]} ∪ v))) ({[qUrl next]} ∪ v)
       (r ++ [fst (visit w domain maxDepth next q ({[qUrl next]} ∪ v))])) ->
  forall b q v r, I b q v r ->
  exists b' q' v', I b' q' v' (crawlLoop w domain maxDepth b q v r) /\ (q' = [] \/ b' = 0%nat).
Proof.
  intros Hskip Hvisit. induction b as [|b IHb]; intros q v r HI.
  - rewrite CrawlerFacts.crawlLoop_O. exists 0%nat, q, v. auto.
  - revert v r HI. induction q as [|next q IHq]; intros v r HI.
    + rewrite CrawlerFacts.crawlLoop_nil. exists (S b), [], v. auto.
    + destruct (decide (qUrl next ∈ v)) as [Hin|Hin].
      * rewrite CrawlerFacts.crawlLoop_skip by assumption. apply IHq. eapply Hskip; eauto.
      * rewrite CrawlerFacts.crawlLoop_visit by assumption. apply IHb. now apply Hvisit.
Qed.

(** Scanning a page only appends to the queue, and what it appends lies
    one level below the page. *)
Lemma eachAnchor_appends currentUrl depth visited st href :
  exists pushed,
    lQueue (eachAnchor w domain maxDepth currentUrl depth visited st href)
      = lQueue st ++ pushed /\
    Forall (fun item => qDepth item = depth + 1) pushed.
Proof.
  unfold eachAnchor.
  destruct href as [href|]; [|exists []; now rewrite app_nil_r].
  destruct (negb (truthy href) || negb (isValidLink href));
    [exists []; now rewrite app_nil_r|].
  destruct (parseURL w href (Some currentUrl)) as [u|]; [|exists []; now rewrite app_nil_r].
  destruct (parseURL w (URL_href u) None) as [u'|]; [|exists []; now rewrite app_nil_r].
  destruct (String.eqb (URL_hostname u') domain); [|exists []; now rewrite app_nil_r].
  cbn [lQueue].
  match goal with |- context [if ?c then _ else _] => destruct c end.
  - eexists. split; [reflexivity|]. repeat constructor.
  - exists []. now rewrite app_nil_r.
Qed.

Lemma fold_eachAnchor_appends currentUrl depth visited hrefs st :
  exists pushed,
    lQueue (fold_left (eachAnchor w domain maxDepth currentUrl depth visited) hrefs st)
      = lQueue st ++ pushed /\
    Forall (fun item => qDepth item = depth + 1) pushed.
Proof.
  revert st. induction hrefs as [|href hrefs IH]; intros st; simpl.
  - exists []. now rewrite app_nil_r.
  - destruct (IH (eachAnchor w domain maxDepth currentUrl depth visited st href))
      as (p2 & E2 & F2).
    destruct (eachAnchor_appends currentUrl depth visited st href) as (p1 & E1 & F1).
    exists (p1 ++ p2). rewrite E2, E1, <- app_assoc. split; [reflexivity|].
    apply Forall_app. auto.
Qed.

Lemma visit_appends next q v :
  exists pushed,
    snd (visit w domain maxDepth next q v) = q ++ pushed /\
    Forall (fun item => qDepth item = qDepth next + 1) pushed.
Proof.
  unfold visit. destruct (httpGet w (qUrl next)) as [m|sc ct data]; cbn [snd].
  - exists []. now rewrite app_nil_r.
  - match goal with |- context [if ?c then _ else _] => destruct c end; cbn [lQueue].
    + apply (fold_eachAnchor_appends (qUrl next) (qDepth next) v _ (mkLinks [] [] q)).
    + exists []. now rewrite app_nil_r.
Qed.

Lemma eachAnchor_covered currentUrl depth visited st href :
  depth < maxDepth ->
  linksCovered visited st ->
  linksCovered visited (eachAnchor w domain maxDepth currentUrl depth visited st href).
Proof.
  intros Hlt Hc. unfold eachAnchor.
  destruct href as [href|]; [|exact Hc].
  destruct (negb (truthy href) || negb (isValidLink href)); [exact Hc|].
  destruct (parseURL w href (Some currentUrl)) as [u|]; [|exact Hc].
  destruct (parseURL w (URL_href u) None) as [u'|]; [|exact Hc].
  destruct (String.eqb (URL_hostname u') domain); [|exact Hc].
  apply Z.ltb_lt in Hlt. rewrite Hlt. cbn [andb].
  intros x Hx. cbn [lInternal lQueue] in *.
  apply elem_of_app in Hx. destruct Hx as [Hx|Hx].
  - destruct (Hc x Hx) as [Hv|Hq]; [now left|right].
    match goal with |- context [if ?c then _ else _] => destruct c end; [|exact Hq].
    rewrite fmap_app. apply elem_of_app. now left.
  - apply list_elem_of_singleton in Hx. subst x.
    destruct (bool_decide (URL_href u ∈ visited)) eqn:Hseen; cbn [negb andb].
    + left. now apply bool_decide_eq_true in Hseen.
    + right.
      destruct (existsb (fun item => String.eqb (qUrl item) (URL_href u)) (lQueue st))
        eqn:Hex; cbn [negb].
      * apply existsb_exists in Hex. destruct Hex as (item & Hin & Heq).
        apply String.eqb_eq in Heq. rewrite <- Heq.
        apply list_elem_of_fmap_2. now apply list_elem_of_In.
      * rewrite fmap_app. apply elem_of_app. right. apply list_elem_of_here.
Qed.

Lemma visit_covered next q v u :
  qDepth next < maxDepth ->
  u ∈ internalLinks (fst (visit w domain maxDepth next q v)) ->
  u ∈ v \/ u ∈ qUrl <$> snd (visit w domain maxDepth next q v).
Proof.
  intros Hlt. unfold visit.
  destruct (httpGet w (qUrl next)) as [m|sc ct data]; cbn [fst snd internalLinks];
    [intros Hu; inversion Hu|].
  match goal with |- context [if ?c then _ else _] => destruct c end;
    cbn [lInternal lQueue]; [|intros Hu; inversion Hu].
  assert (G : forall hrefs st, linksCovered v st ->
    linksCovered v (fold_left (eachAnchor w domain maxDepth (qUrl next) (qDepth next) v)
                      hrefs st)).
  { induction hrefs as [|href hrefs IH]; intros st Hc; simpl; [exact Hc|].
    apply IH. now apply eachAnchor_covered. }
  apply G. intros x Hx. inversion Hx.
Qed.

Lemma crawlInv_skip limit b next q v r :
  crawlInv maxDepth limit (S b) (next :: q) v r -> qUrl next ∈ v -> crawlInv maxDepth limit (S b) q v r.
Proof.
  intros (Hb & Hv & Hnd & Hc) Hin. repeat split; try assumption; try apply Hv.
  intros p u Hp Hd Hu. destruct (Hc p u Hp Hd Hu) as [H|H]; [now left|].
  rewrite fmap_cons in H. apply elem_of_cons in H. destruct H as [->|H]; auto.
Qed.

Lemma crawlInv_visit limit b next q v r :
  crawlInv maxDepth limit (S b) (next :: q) v r -> qUrl next ∉ v ->
  crawlInv maxDepth limit b (snd (visit w domain maxDepth next q ({[qUrl next]} ∪ v)))
    ({[qUrl next]} ∪ v)
    (r ++ [fst (visit w domain maxDepth next q ({[qUrl next]} ∪ v))]).
Proof.
  intros (Hb & Hv & Hnd & Hc) Hnew.
  destruct (CrawlerFacts.visit_result w domain maxDepth next q ({[qUrl next]} ∪ v))
    as [Hu Hd].
  destruct (visit_appends next q ({[qUrl next]} ∪ v)) as (pushed & Hq & _).
  set (res := fst (visit w domain maxDepth next q ({[qUrl next]} ∪ v))) in *.
  split; [rewrite length_app; simpl; lia|]. split; [|split].
  - intros u. rewrite fmap_app, elem_of_app, elem_of_union, elem_of_singleton.
    simpl. rewrite list_elem_of_singleton, Hu, Hv. tauto.
  - rewrite fmap_app. apply NoDup_app. split; [exact Hnd|]. split.
    + intros x Hx Hx'. simpl in Hx'. apply list_elem_of_singleton in Hx'.
      subst x. rewrite Hu in Hx. apply Hv in Hx. contradiction.
    + simpl. apply NoDup_singleton.
  - intros p u Hp Hdp Hlink. apply elem_of_app in Hp. destruct Hp as [Hp|Hp].
    + destruct (Hc p u Hp Hdp Hlink) as [H|H];
        [left; apply elem_of_union; now right|].
      rewrite fmap_cons in H. apply elem_of_cons in H. destruct H as [->|H].
      * left. apply elem_of_union. left. now apply elem_of_singleton.
      * right. rewrite Hq, fmap_app. apply elem_of_app. now left.
    + apply list_elem_of_singleton in Hp. subst p. rewrite Hd in Hdp.
      now apply visit_covered.
Qed.

Lemma crawlLoop_crawlInv limit b q v r :
  crawlInv maxDepth limit b q v r ->
  exists b' q' v',
    crawlInv maxDepth limit b' q' v' (crawlLoop w domain maxDepth b q v r) /\
    (q' = [] \/ b' = 0%nat).
Proof.
  apply (crawlLoop_run (crawlInv maxDepth limit)).
  - intros. eapply crawlInv_skip; eauto.
  - intros. now apply crawlInv_visit.
Qed.

Lemma StronglySorted_constant (c : Z) (l : list Z) :
  Forall (fun x => x = c) l -> StronglySorted Z.le l.
Proof.
  induction 1 as [|x l Hx Hl IH]; constructor; [exact IH|].
  subst x. eapply Forall_impl; [exact Hl|]. intros y ->. lia.
Qed.

Lemma bfsInv_skip next q r : bfsInv (next :: q) r -> bfsInv q r.
Proof.
  intros (Hs & Hgap & Hpos). rewrite fmap_cons in Hs, Hpos.
  apply StronglySorted_app in Hs. destruct Hs as (Hx & Hr & Hq).
  apply StronglySorted_cons in Hq. destruct Hq as [_ Hq].
  apply Forall_app in Hpos. destruct Hpos as [Hpr Hpq].
  apply Forall_cons in Hpq. destruct Hpq as [_ Hpq].
  split; [|split].
  - apply StronglySorted_app_2; try assumption.
    intros x1 x2 H1 H2. apply Hx; [exact H1 | now apply list_elem_of_further].
  - intros a b Ha Hb. apply Hgap; now apply list_elem_of_further.
  - apply Forall_app. auto.
Qed.

Lemma bfsInv_visit next q v r :
  bfsInv (next :: q) r ->
  bfsInv (snd (visit w domain maxDepth next q v))
    (r ++ [fst (visit w domain maxDepth next q v)]).
Proof.
  intros (Hs & Hgap & Hpos).
  destruct (CrawlerFacts.visit_result w domain maxDepth next q v) as [_ Hd].
  destruct (visit_appends next q v) as (pushed & Hq & Hp).
  unfold bfsInv. rewrite Hq. clear Hq.
  rewrite !fmap_app. cbn [fmap list_fmap]. rewrite Hd.
  rewrite fmap_cons in Hs, Hpos.
  assert (Hpd : Forall (fun x => x = qDepth next + 1) (qDepth <$> pushed)).
  { apply Forall_fmap. exact Hp. }
  assert (Hhead : 0 <= qDepth next).
  { apply Forall_app in Hpos. destruct Hpos as [_ Hpq].
    apply Forall_cons in Hpq. tauto. }
  assert (Hle : forall a, a ∈ q -> qDepth next <= qDepth a).
  { intros a Ha. apply StronglySorted_app_1_r in Hs.
    apply StronglySorted_cons in Hs. destruct Hs as [Hall _].
    rewrite Forall_forall in Hall. apply Hall. now apply list_elem_of_fmap_2. }
  assert (Hnear : forall a, a ∈ q -> qDepth a <= qDepth next + 1).
  { intros a Ha. apply Hgap; [apply list_elem_of_here | now apply list_elem_of_further]. }
  assert (Hall : forall x, x ∈ (prDepth <$> r) ++ qDepth next :: (qDepth <$> q) ->
                           x <= qDepth next + 1).
  { intros x Hx. apply elem_of_app in Hx. destruct Hx as [Hx|Hx].
    - assert (x <= qDepth next); [|lia].
      eapply StronglySorted_app_1_elem_of; [exact Hs | exact Hx | apply list_elem_of_here].
    - apply elem_of_cons in Hx. destruct Hx as [->|Hx]; [lia|].
      apply list_elem_of_fmap in Hx. destruct Hx as (a & -> & Ha). now apply Hnear. }
  replace (((prDepth <$> r) ++ [qDepth next]) ++ (qDepth <$> q) ++ (qDepth <$> pushed))
    with (((prDepth <$> r) ++ qDepth next :: (qDepth <$> q)) ++ (qDepth <$> pushed))
    by (now rewrite <- !app_assoc).
  split; [|split].
  - apply StronglySorted_app_2; [|exact Hs|eapply StronglySorted_constant; exact Hpd].
    intros x1 x2 H1 H2. rewrite Forall_forall in Hpd. rewrite (Hpd x2 H2). now apply Hall.
  - assert (Hpush : forall b, b ∈ pushed -> qDepth b = qDepth next + 1).
    { rewrite Forall_forall in Hp. exact Hp. }
    intros a b Ha Hb. apply elem_of_app in Ha, Hb.
    destruct Ha as [Ha|Ha], Hb as [Hb|Hb].
    + apply Hgap; now apply list_elem_of_further.
    + rewrite (Hpush b Hb). pose proof (Hle a Ha). lia.
    + rewrite (Hpush a Ha). pose proof (Hnear b Hb). lia.
    + rewrite (Hpush a Ha), (Hpush b Hb). lia.
  - apply Forall_app. split; [exact Hpos|].
    eapply Forall_impl; [exact Hpd|]. intros x ->. lia.
Qed.

Lemma crawlLoop_bfsInv b q v r :
  bfsInv q r -> exists q', bfsInv q' (crawlLoop w domain maxDepth b q v r).
Proof.
  intros H.
  destruct (CrawlerFacts.crawlLoop_invariant w domain maxDepth (fun q _ res => bfsInv q res))
    with b q v r as (q' & _ & H'); eauto.
  - intros next q0 _ r0 H0 _. eapply bfsInv_skip; eauto.
  - intros next q0 v0 r0 H0 _. now apply bfsInv_visit.
Qed.

End Run.

Lemma crawlInv_start (maxDepth : Z) (limit : nat) (q : list QueueItem) :
  crawlInv maxDepth limit limit q ∅ [].
Proof.
  split; [reflexivity|]. split; [|split].
  - intros x. split; intros H; [now apply not_elem_of_empty in H | inversion H].
  - constructor.
  - intros p x Hp. inversion Hp.
Qed.

(** The state in which the loop of a crawl ends. *)
Lemma crawlSite_crawlInv (w : World) (startUrl : string) (options : CrawlOptions) :
  exists b' q' v',
    crawlInv (default DEFAULT_maxDepth (maxDepth options))
      (Z.to_nat (default DEFAULT_maxPages (maxPages options)))
      b' q' v' (crawlSite w startUrl options) /\
    (q' = [] \/ b' = 0%nat \/ parseURL w startUrl None = None).
Proof.
  unfold crawlSite. destruct (parseURL w startUrl None) as [u|].
  - destruct (crawlLoop_crawlInv w (URL_hostname u)
                (default DEFAULT_maxDepth (maxDepth options))
                (Z.to_nat (default DEFAULT_maxPages (maxPages options)))
                (Z.to_nat (default DEFAULT_maxPages (maxPages options)))
                [mkQueueItem startUrl 0] ∅ []) as (b' & q' & v' & Hinv & Hend).
    + apply crawlInv_start.
    + exists b', q', v'. split; [exact Hinv | tauto].
  - exists (Z.to_nat (default DEFAULT_maxPages (maxPages options))), [], ∅.
    split; [apply crawlInv_start | now left].
Qed.

(** The first iteration of a crawl with room for a page fetches the seed. *)
Lemma crawlSite_head (w : World) (startUrl : string) (options : CrawlOptions)
    (u : ParsedURL) :
  parseURL w startUrl None = Some u ->
  0 < default DEFAULT_maxPages (maxPages options) ->
  exists r rest,
    crawlSite w startUrl options = r :: rest /\ prUrl r = startUrl /\ prDepth r = 0.
Proof.
  intros Hu Hpos. unfold crawlSite. rewrite Hu.
  destruct (Z.to_nat (default DEFAULT_maxPages (maxPages options))) as [|b] eqn:Hb; [lia|].
  rewrite CrawlerFacts.crawlLoop_visit by apply not_elem_of_empty.
  cbn [qUrl app].
  set (v := {[startUrl]} ∪ ∅).
  set (limit := default DEFAULT_maxDepth (maxDepth options)).
  destruct (CrawlerFacts.visit_result w (URL_hostname u) limit
              (mkQueueItem startUrl 0) [] v) as [Hr Hd].
  set (res := fst (visit w (URL_hostname u) limit (mkQueueItem startUrl 0) [] v)) in *.
  destruct (CrawlerFacts.crawlLoop_extends w (URL_hostname u) limit b
              (snd (visit w (URL_hostname u) limit (mkQueueItem startUrl 0) [] v))
              v [res]) as [k Hk].
  exists res, k. split; [exact Hk|]. split; assumption.
Qed.

(** X1: no URL occurs twice among the results of a crawl. *)
Theorem crawl_urls_are_distinct (w : World) (startUrl : string) (options : CrawlOptions) :
  NoDup (prUrl <$> crawlSite w startUrl options).
Proof.
  destruct (crawlSite_crawlInv w startUrl options) as (b' & q' & v' & Hinv & _).
  destruct Hinv as (_ & _ & Hnd & _). exact Hnd.
Qed.


(** X3: when a crawl ends with fewer than [maxPages] results, every
    internal link found on a result below the depth limit has a result of
    its own. *)
Theorem crawl_follows_every_link (w : World) (startUrl : string) (options : CrawlOptions)
    (p : PageResult) (link : string) :
  Z.of_nat (length (crawlSite w startUrl options))
    < default DEFAULT_maxPages (maxPages options) ->
  p ∈ crawlSite w startUrl options ->
  prDepth p < default DEFAULT_maxDepth (maxDepth options) ->
  link ∈ internalLinks p ->
  exists r, r ∈ crawlSite w startUrl options /\ prUrl r = link.
Proof.
  intros Hroom Hp Hd Hlink.
  destruct (crawlSite_crawlInv w startUrl options) as (b' & q' & v' & Hinv & Hend).
  destruct Hinv as (Hlen & Hv & _ & Hc).
  assert (Hq : q' = []).
  { destruct Hend as [Hq|[Hb|Hnone]]; [exact Hq | lia |].
    unfold crawlSite in Hp. rewrite Hnone in Hp. inversion Hp. }
  subst q'. destruct (Hc p link Hp Hd Hlink) as [Hin|Hin]; [|inversion Hin].
  apply Hv in Hin. apply list_elem_of_fmap in Hin. destruct Hin as (r & -> & Hr).
  exists r. auto.
Qed.

Lemma crawl_follows_every_link_witness :
  Z.of_nat (length (crawlSite Examples.linkedWorld Examples.seed (Examples.options 5 2))) < 5 /\
  Examples.linkedSeedResult ∈
    crawlSite Examples.linkedWorld Examples.seed (Examples.options 5 2) /\
  prDepth Examples.linkedSeedResult < 2 /\
  "http://site.test/a"%string ∈ internalLinks Examples.linkedSeedResult /\
  exists r, r ∈ crawlSite Examples.linkedWorld Examples.seed (Examples.options 5 2) /\
            prUrl r = "http://site.test/a"%string.
Proof.
  assert (Hin : Examples.linkedSeedResult ∈
                  crawlSite Examples.linkedWorld Examples.seed (Examples.options 5 2)).
  { vm_compute. apply list_elem_of_here. }
  assert (Hlink : "http://site.test/a"%string ∈ internalLinks Examples.linkedSeedResult).
  { apply list_elem_of_here. }
  assert (Hroom : Z.of_nat (length (crawlSite Examples.linkedWorld Examples.seed
                                      (Examples.options 5 2))) < 5).
  { vm_compute. reflexivity. }
  split; [exact Hroom|]. split; [exact Hin|]. split; [reflexivity|]. split; [exact Hlink|].
  apply (crawl_follows_every_link Examples.linkedWorld Examples.seed (Examples.options 5 2)
           Examples.linkedSeedResult "http://site.test/a" Hroom Hin eq_refl Hlink).
Defined.

(** X4: a crawl of a well-formed seed with room for a page starts with the
    seed at depth 0; with [maxPages = 1] that is its only result, whatever
    the seed links to. *)
Theorem crawl_starts_at_seed (w : World) (startUrl : string) (options : CrawlOptions)
    (u : ParsedURL) :
  parseURL w startUrl None = Some u ->
  0 < default DEFAULT_maxPages (maxPages options) ->
  exists r rest,
    crawlSite w startUrl options = r :: rest /\ prUrl r = startUrl /\ prDepth r = 0 /\
    (default DEFAULT_maxPages (maxPages options) = 1 -> rest = []).
Proof.
  intros Hu Hpos.
  destruct (crawlSite_head w startUrl options u Hu Hpos) as (r & rest & E & Hr & Hd).
  exists r, rest. repeat split; try assumption.
  intros Hone.
  destruct (crawlSite_crawlInv w startUrl options) as (b' & q' & v' & Hinv & _).
  destruct Hinv as (Hlen & _). rewrite E, Hone in Hlen. simpl in Hlen.
  destruct rest; [reflexivity | simpl in Hlen; lia].
Qed.

Lemma crawl_starts_at_seed_witness :
  parseURL Examples.linkedWorld Examples.seed None
    = Some (mkParsedURL Examples.seed "site.test") /\
  0 < default DEFAULT_maxPages (maxPages (Examples.options 1 2)) /\
  exists r rest,
    crawlSite Examples.linkedWorld Examples.seed (Examples.options 1 2) = r :: rest /\
    prUrl r = Examples.seed /\ prDepth r = 0 /\
    (default DEFAULT_maxPages (maxPages (Examples.options 1 2)) = 1 -> rest = []).
Proof.
  split; [reflexivity|]. split; [reflexivity|].
  apply (crawl_starts_at_seed Examples.linkedWorld Examples.seed (Examples.options 1 2)
           (mkParsedURL Examples.seed "site.test")); reflexivity.
Defined.

(** X5: a crawl returns nothing exactly when the seed URL does not parse or
    [maxPages] is not positive. *)
Theorem crawl_is_empty_iff (w : World) (startUrl : string) (options : CrawlOptions) :
  crawlSite w startUrl options = [] <->
  parseURL w startUrl None = None \/ default DEFAULT_maxPages (maxPages options) <= 0.
Proof.
  split.
  - intros Hempty. destruct (parseURL w startUrl None) as [u|] eqn:Hu; [|now left].
    right. destruct (Z_lt_le_dec 0 (default DEFAULT_maxPages (maxPages options)))
      as [Hpos|Hle]; [|exact Hle].
    destruct (crawlSite_head w startUrl options u Hu Hpos) as (r & rest & E & _).
    congruence.
  - intros [Hnone|Hle]; unfold crawlSite.
    + now rewrite Hnone.
    + destruct (parseURL w startUrl None); [|reflexivity].
      replace (Z.to_nat (default DEFAULT_maxPages (maxPages options))) with 0%nat by lia.
      apply CrawlerFacts.crawlLoop_O.
Qed.

(** X6: results come in breadth-first order: their depths never decrease
    along the result sequence, and none is negative. *)
Theorem crawl_depths_ascend (w : World) (startUrl : string) (options : CrawlOptions) :
  StronglySorted Z.le (prDepth <$> crawlSite w startUrl options) /\
  Forall (fun r => 0 <= prDepth r) (crawlSite w startUrl options).
Proof.
  assert (H : exists q', bfsInv q' (crawlSite w startUrl options)).
  { unfold crawlSite. destruct (parseURL w startUrl None) as [u|].
    - apply crawlLoop_bfsInv. split; [|split]; simpl.
      + constructor; constructor.
      + intros a b Ha Hb. apply list_elem_of_singleton in Ha, Hb. subst. simpl. lia.
      + constructor; [lia | constructor].
    - exists []. split; [|split]; simpl;
        [constructor | intros a b Ha; inversion Ha | constructor]. }
  destruct H as (q' & Hs & _ & Hpos). split.
  - now apply StronglySorted_app_1_l in Hs.
  - apply Forall_app in Hpos. destruct Hpos as [Hr _].
    rewrite Forall_fmap in Hr. eapply Forall_impl; [exact Hr|]. intros r Hr0. exact Hr0.
Qed.

End CrawlProperties.

(** ** More on scoring: ranges, means, monotonicity *)

Module ScoreProperties.
Import JS Scoring.

Lemma clampScore_range {num} `{Number num} (x : num) : 0 <= clampScore x <= 100.
Proof. unfold clampScore. lia. Qed.

(** Rounding keeps a number between the integers that bound it. *)
Lemma Math_round_between (lo hi : Z) (x : Q) :
  (inject_Z lo <= x)%Q -> (x <= inject_Z hi)%Q -> lo <= Math_round x <= hi.
Proof.
  intros Hlo Hhi. unfold Math_round. split.
  - rewrite <- (Qfloor_Z lo). apply Qfloor_resp_le.
    apply Qle_trans with x; [exact Hlo|].
    rewrite <- (Qplus_0_r x) at 1. apply Qplus_le_r. discriminate.
  - rewrite <- (ScoringFacts.Math_round_inject_Z hi). unfold Math_round.
    apply Qfloor_resp_le. now apply Qplus_le_l.
Qed.

Lemma clampScore_between (lo hi : Z) (x : Q) :
  0 <= lo -> hi <= 100 ->
  (inject_Z lo <= x)%Q -> (x <= inject_Z hi)%Q -> lo <= clampScore x <= hi.
Proof.
  intros H0 H100 Hlo Hhi. pose proof (Math_round_between lo hi x Hlo Hhi).
  unfold clampScore; simpl. lia.
Qed.

Lemma Math_round_mono (x y : Q) : (x <= y)%Q -> Math_round x <= Math_round y.
Proof. intros H. unfold Math_round. apply Qfloor_resp_le. now apply Qplus_le_l. Qed.

Lemma clampScore_mono (x y : Q) : (x <= y)%Q -> clampScore x <= clampScore y.
Proof. intros H. pose proof (Math_round_mono x y H). unfold clampScore; simpl. lia. Qed.

(** Every category score as the formula on integers. *)
Lemma categoryScore_formula (cat : ScoreCategory) (page : PageData) :
  categoryScore cat (calculatePageScores page) =
  match cat, performanceData page ≫= performanceScore with
  | performance, Some score =>
      clampZ ((2 * score - categoryPenalty performance (issues page) + 1) / 2)
  | _, _ => formulaScore cat page
  end.
Proof.
  destruct (ScoringFacts.penalties_inject page) as (Hs & Ha & Hc & Hu).
  destruct cat; unfold calculatePageScores, categoryScore; simpl.
  - rewrite Hs. apply (ScoringFacts.scoreCategory_formula 100).
  - rewrite ScoringFacts.performance_score_formula.
    destruct (performanceData page ≫= performanceScore); reflexivity.
  - rewrite Ha. apply (ScoringFacts.scoreCategory_formula 100).
  - rewrite (ScoringFacts.scoreCategory_proper _ _ _ _ _ Hc).
    apply (ScoringFacts.scoreCategory_formula 95).
  - rewrite Hu. apply (ScoringFacts.scoreCategory_formula 100).
Qed.

Lemma overall_is_rounded_mean (page : PageData) :
  let s := calculatePageScores page in
  overall s =
  clampScore (inject_Z (seoScore s + accessibilityScore s + contentScore s
                        + uxDesignScore s + performanceScore_ s) / 5)%Q.
Proof. reflexivity. Qed.

Lemma categoryPenalty_nonneg (cat : ScoreCategory) (l : list Issue) :
  0 <= categoryPenalty cat l.
Proof.
  unfold categoryPenalty. induction l as [|i l IH]; simpl; [lia|].
  destruct (bool_decide (category i = cat)); [|exact IH].
  destruct (severity i); simpl; lia.
Qed.

Lemma categoryPenalty_push (cat : ScoreCategory) (l : list Issue) (i : Issue) :
  categoryPenalty cat (l ++ [i]) =
  categoryPenalty cat l + (if bool_decide (category i = cat) then penaltyPoints (severity i) else 0).
Proof.
  unfold categoryPenalty. induction l as [|j l IH]; simpl.
  - destruct (bool_decide (category i = cat)); lia.
  - rewrite IH. destruct (bool_decide (category j = cat)); lia.
Qed.

Lemma penaltyPoints_pos (s : Severity) : 0 < penaltyPoints s.
Proof. destruct s; simpl; lia. Qed.

(** X7: every score the scorer produces lies between 0 and 100: the six
    scores of a page and the six scores of an audit, for any list of pages,
    the empty one included. *)
Theorem scores_are_percentages {num} `{Number num} (page : PageData) (pages : list PageData) :
  scoresWithin 0 100 (calculatePageScores page) /\
  scoresWithin 0 100 (fst (calculateAuditScores pages)).
Proof.
  split.
  - unfold scoresWithin, scoreFields, calculatePageScores, scorePerformance, scoreCategory.
    repeat constructor; simpl; try apply (clampScore_range (num := Q)).
    1, 2: destruct (performanceData page ≫= performanceScore);
          apply (clampScore_range (num := Q)).
  - destruct pages as [|p pages].
    + repeat constructor; simpl; lia.
    + unfold calculateAuditScores.
      destruct (fold_left accumulate (p :: pages) _) as [t tw].
      repeat constructor; simpl; apply clampScore_range.
Qed.

(** X8: the overall score of a page lies between its lowest and its
    highest category score. *)
Theorem overall_between_categories (page : PageData) (lo hi : Z) :
  (forall cat, lo <= categoryScore cat (calculatePageScores page) <= hi) ->
  lo <= overall (calculatePageScores page) <= hi.
Proof.
  intros Hall. rewrite overall_is_rounded_mean.
  pose proof (Hall seo) as Hs. pose proof (Hall performance) as Hp.
  pose proof (Hall accessibility) as Ha. pose proof (Hall content) as Hc.
  pose proof (Hall uxDesign) as Hu. cbn [categoryScore] in *.
  set (s := calculatePageScores page) in *.
  destruct (scores_are_percentages (num := Q) page []) as [Hrange _].
  fold s in Hrange. unfold scoresWithin, scoreFields in Hrange.
  inversion_clear Hrange as [|? ? _ Hr1].
  inversion_clear Hr1 as [|? ? R1 Hr2]. inversion_clear Hr2 as [|? ? R2 Hr3].
  inversion_clear Hr3 as [|? ? R3 Hr4]. inversion_clear Hr4 as [|? ? R4 Hr5].
  inversion_clear Hr5 as [|? ? R5 _].
  set (total := seoScore s + accessibilityScore s + contentScore s
                + uxDesignScore s + performanceScore_ s) in *.
  assert (Hlo : (inject_Z (Z.max 0 lo) <= inject_Z total / 5)%Q).
  { apply Qle_shift_div_l; [reflexivity|].
    rewrite <- (inject_Z_mult _ 5), <- Zle_Qle. unfold total. lia. }
  assert (Hhi : (inject_Z total / 5 <= inject_Z (Z.min 100 hi))%Q).
  { apply Qle_shift_div_r; [reflexivity|].
    rewrite <- (inject_Z_mult _ 5), <- Zle_Qle. unfold total. lia. }
  pose proof (clampScore_between (Z.max 0 lo) (Z.min 100 hi) _
                ltac:(lia) ltac:(lia) Hlo Hhi).
  lia.
Qed.

Lemma overall_between_categories_witness :
  (forall cat, 73 <= categoryScore cat (calculatePageScores Examples.measuredPage) <= 100) /\
  73 <= overall (calculatePageScores Examples.measuredPage) <= 100.
Proof.
  assert (H : forall cat,
    73 <= categoryScore cat (calculatePageScores Examples.measuredPage) <= 100).
  { intros cat. destruct cat; vm_compute; split; discriminate. }
  split; [exact H|].
  apply (overall_between_categories Examples.measuredPage 73 100 H).
Defined.

(** X9: one more issue never raises a score of the page: the scores of the
    other categories stay as they are, the score of the issue's category
    and the overall score do not increase. *)
Theorem extra_issue_never_raises_scores (page : PageData) (issue : Issue) (cat : ScoreCategory) :
  let before := calculatePageScores page in
  let after := calculatePageScores (pushIssue page issue) in
  (cat <> category issue -> categoryScore cat after = categoryScore cat before) /\
  categoryScore cat after <= categoryScore cat before /\
  overall after <= overall before.
Proof.
  assert (Hcat : forall c,
    (c <> category issue ->
     categoryScore c (calculatePageScores (pushIssue page issue))
     = categoryScore c (calculatePageScores page)) /\
    categoryScore c (calculatePageScores (pushIssue page issue))
    <= categoryScore c (calculatePageScores page)).
  { intros c. rewrite !categoryScore_formula.
    unfold formulaScore, categoryBase, extraPenalty, pushIssue.
    cbn [issues performanceData seoData accessibilityData contentData designUxData depth].
    pose proof (penaltyPoints_pos (severity issue)) as Hpos.
    pose proof (categoryPenalty_push c (issues page) issue) as Hpush.
    destruct (bool_decide (category issue = c)) eqn:Hb.
    - apply bool_decide_eq_true in Hb. split; [congruence|].
      destruct c; destruct (performanceData page ≫= performanceScore) as [sc|];
        rewrite Hpush; try (unfold clampZ; lia).
      assert ((2 * sc - (categoryPenalty performance (issues page)
                         + penaltyPoints (severity issue)) + 1) / 2
              <= (2 * sc - categoryPenalty performance (issues page) + 1) / 2)
        by (apply Z.div_le_mono; lia).
      unfold clampZ; lia.
    - rewrite Z.add_0_r in Hpush.
      destruct c; destruct (performanceData page ≫= performanceScore) as [sc|];
        rewrite Hpush; split; try reflexivity; lia. }
  intros before after. unfold before, after.
  split; [apply Hcat|]. split; [apply Hcat|].
  rewrite !overall_is_rounded_mean. apply clampScore_mono.
  apply Qmult_le_compat_r; [|discriminate]. rewrite <- Zle_Qle.
  pose proof (proj2 (Hcat seo)). pose proof (proj2 (Hcat performance)).
  pose proof (proj2 (Hcat accessibility)). pose proof (proj2 (Hcat content)).
  pose proof (proj2 (Hcat uxDesign)). cbn [categoryScore] in *. lia.
Qed.

End ScoreProperties.

(** ** More on the orchestrator: the link graph, identifiers, the store *)

Module AuditProperties.
Import JS Analyzers Runner.

(** *** The inbound-link map *)

Lemma zeroed_lookup (pages : list PageResult) (m : gmap string Z) (u : string) :
  fold_left (fun m p => <[prUrl p := 0]> m) pages m !! u =
  if decide (u ∈ prUrl <$> pages) then Some 0 else m !! u.
Proof.
  revert m. induction pages as [|p pages IH]; intros m.
  - simpl. destruct (decide (u ∈ [])) as [H|H]; [inversion H | reflexivity].
  - cbn [fold_left]. rewrite IH, fmap_cons.
    destruct (decide (u ∈ prUrl <$> pages)) as [Hin|Hin],
             (decide (u ∈ prUrl p :: (prUrl <$> pages))) as [Hin'|Hin'].
    + reflexivity.
    + exfalso. apply Hin'. now apply list_elem_of_further.
    + apply elem_of_cons in Hin'. destruct Hin' as [->|Hin']; [|contradiction].
      apply lookup_insert_eq.
    + rewrite lookup_insert_ne; [reflexivity|].
      intros Heq. apply Hin'. rewrite <- Heq. apply list_elem_of_here.
Qed.

Lemma bump_lookup (m : gmap string Z) (link u : string) :
  bump m link !! u = (fun n => if decide (link = u) then n + 1 else n) <$> m !! u.
Proof.
  unfold bump. destruct (m !! link) as [n|] eqn:Hl.
  - destruct (decide (link = u)) as [->|Hne].
    + rewrite lookup_insert_eq, Hl. reflexivity.
    + rewrite lookup_insert_ne by assumption. now destruct (m !! u).
  - destruct (decide (link = u)) as [->|Hne].
    + now rewrite Hl.
    + now destruct (m !! u).
Qed.

Lemma bumps_lookup (links : list string) (m : gmap string Z) (u : string) :
  fold_left bump links m !! u =
  (fun n => n + Z.of_nat (length (filter (fun link => link = u) links))) <$> m !! u.
Proof.
  revert m. induction links as [|link links IH]; intros m; simpl.
  - destruct (m !! u); simpl; [f_equal; lia | reflexivity].
  - rewrite IH, bump_lookup, filter_cons.
    destruct (m !! u) as [n|]; simpl; [|reflexivity]. f_equal.
    destruct (decide (link = u)); simpl; lia.
Qed.

Lemma bumps_by_page (pages : list PageResult) (m : gmap string Z) :
  fold_left (fun m page => fold_left bump (internalLinks page) m) pages m
  = fold_left bump (flat_map internalLinks pages) m.
Proof.
  revert m. induction pages as [|p pages IH]; intros m; simpl; [reflexivity|].
  now rewrite IH, fold_left_app.
Qed.

Lemma inbound_lookup (pages : list PageResult) (u : string) :
  buildInboundLinkMap pages !! u =
  if decide (u ∈ prUrl <$> pages) then Some (inboundCount pages u) else None.
Proof.
  unfold buildInboundLinkMap. fold bump.
  rewrite bumps_by_page, bumps_lookup, zeroed_lookup. unfold inboundCount.
  destruct (decide (u ∈ prUrl <$> pages)); reflexivity.
Qed.

(** X10: the inbound-link map has an entry exactly for the URLs of the
    crawl results, and the entry of a URL is the number of times it occurs
    among the internal links of all the results, a page's links to itself
    and repeated links included. *)
Theorem inbound_map_counts_links (pages : list PageResult) (u : string) :
  (u ∈ prUrl <$> pages -> buildInboundLinkMap pages !! u = Some (inboundCount pages u)) /\
  (u ∉ prUrl <$> pages -> buildInboundLinkMap pages !! u = None) /\
  0 <= inboundCount pages u.
Proof.
  rewrite inbound_lookup. split; [|split].
  - intros Hin. now rewrite decide_True.
  - intros Hout. now rewrite decide_False.
  - unfold inboundCount. lia.
Qed.

Lemma inbound_map_counts_links_witness :
  ("http://site.test/a"%string ∈
     prUrl <$> Crawler.crawlSite Examples.linkedWorld Examples.seed (Examples.options 5 2)) /\
  buildInboundLinkMap
    (Crawler.crawlSite Examples.linkedWorld Examples.seed (Examples.options 5 2))
    !! "http://site.test/a"%string = Some 2.
Proof.
  assert (Hin : "http://site.test/a"%string ∈
     prUrl <$> Crawler.crawlSite Examples.linkedWorld Examples.seed (Examples.options 5 2)).
  { vm_compute. apply list_elem_of_further, list_elem_of_here. }
  split; [exact Hin|].
  exact (proj1 (inbound_map_counts_links _ _) Hin).
Defined.

(** *** What the analyzers raise *)

Ltac each_issue :=
  unfold pushIf; repeat case_match; simpl;
  repeat (constructor; [repeat split; discriminate|]); constructor.

Lemma analyzeSeo_own w html url :
  Forall (fromAnalyzer seo url) (snd (analyzeSeo w html url)).
Proof. unfold analyzeSeo. cbn [snd]. each_issue. Qed.

Lemma analyzeAccessibility_own w html url :
  Forall (fromAnalyzer accessibility url) (snd (analyzeAccessibility w html url)).
Proof. unfold analyzeAccessibility. cbn [snd]. each_issue. Qed.

Lemma analyzeDesignUx_own w html url :
  Forall (fromAnalyzer uxDesign url) (snd (analyzeDesignUx w html url)).
Proof. unfold analyzeDesignUx. cbn [snd]. each_issue. Qed.

Lemma analyzeContentStructure_own w page :
  Forall (fromAnalyzer content (prUrl page)) (snd (analyzeContentStructure w page)).
Proof.
  unfold analyzeContentStructure. destruct (prDepth page <=? 1); cbn [snd].
  - unfold pushIf. destruct (0 <? length _)%nat; simpl;
      repeat (constructor; [repeat split; discriminate|]); constructor.
  - constructor.
Qed.

Lemma analyzePerformance_own w url :
  Forall (fromAnalyzer performance url) (snd (analyzePerformance w url)).
Proof.
  unfold analyzePerformance.
  destruct (PAGESPEED_API_KEY w) as [[|c key]|]; cbn [snd app];
    try (repeat (constructor; [repeat split; discriminate|]); constructor).
  destruct (runPagespeed w url (String c key)) as [m|lh]; cbn [snd app];
    [repeat (constructor; [repeat split; discriminate|]); constructor|].
  each_issue.
Qed.

Lemma fromAnalyzer_analyzed cat url (l : list Issue) :
  Forall (fromAnalyzer cat url) l -> Forall (analyzed url) l.
Proof. intros H. eapply Forall_impl; [exact H|]. intros i (_ & Hi). exact Hi. Qed.

Lemma analyzePage_analyzed w raw :
  Forall (analyzed (prUrl raw)) (aoIssues (analyzePage w raw)).
Proof.
  unfold analyzePage. destruct (negb (truthy (html raw))); cbn [aoIssues].
  - repeat constructor; discriminate.
  - destruct (if prDepth raw =? 0 then analyzePerformance w (prUrl raw) else (None, []))
      as [pd pi] eqn:Hp. cbn [aoIssues].
    assert (Hpi : Forall (analyzed (prUrl raw)) pi).
    { destruct (prDepth raw =? 0).
      - pose proof (analyzePerformance_own w (prUrl raw)) as H. rewrite Hp in H.
        eapply fromAnalyzer_analyzed. exact H.
      - injection Hp as _ <-. constructor. }
    repeat (apply Forall_app; split); try exact Hpi;
      eapply fromAnalyzer_analyzed;
      eauto using analyzeSeo_own, analyzeAccessibility_own, analyzeDesignUx_own,
        analyzeContentStructure_own.
Qed.

(** *** Orphan pages *)

Lemma orphan_rule (w : World) (inboundMap : gmap string Z) (k : nat) (raw : PageResult) :
  issuesWhere (fun i => code i = "ORPHAN_PAGE"%string) (issues (analyzeOne w inboundMap k raw)) =
  if truthy_opt (error raw) then []
  else if (default 0 (inboundMap !! prUrl raw) =? 0) && (0 <? prDepth raw)
       then [orphanIssue] else [].
Proof.
  unfold analyzeOne. destruct (error raw) as [[|c s]|]; cbn [truthy_opt truthy];
    try reflexivity.
  all: unfold analyzeReachable; cbn [issues withScores withIssues];
    rewrite RunnerFacts.issuesWhere_imap;
      [| intros; reflexivity | intros; apply RunnerFacts.by_code_describe; reflexivity];
    unfold applyContentGraphIssues; cbn [issues depth url];
    assert (Hnone : issuesWhere (fun i => code i = "ORPHAN_PAGE"%string)
                      (aoIssues (analyzePage w raw)) = [])
      by (apply RunnerFacts.issuesWhere_none;
          eapply Forall_impl; [apply analyzePage_analyzed|];
          intros i (Hc & _); exact Hc);
    destruct ((default 0 (inboundMap !! prUrl raw) =? 0) && (0 <? prDepth raw));
    [rewrite RunnerFacts.issuesWhere_app, Hnone; reflexivity | exact Hnone].
Qed.

(** X11: a page that was analyzed gets the major content issue ORPHAN_PAGE
    exactly when the inbound-link map gives it no inbound link and its depth
    is positive; the seed never gets it, nor does a page whose fetch threw. *)
Theorem orphan_issue_rule (w : World) (inboundMap : gmap string Z) (k : nat)
    (raw : PageResult) :
  let orphans :=
    issuesWhere (fun i => code i = "ORPHAN_PAGE"%string)
      (issues (analyzeOne w inboundMap k raw)) in
  (truthy_opt (error raw) = false -> default 0 (inboundMap !! prUrl raw) = 0 ->
   0 < prDepth raw -> orphans = [orphanIssue]) /\
  (prDepth raw = 0 -> orphans = []) /\
  (default 0 (inboundMap !! prUrl raw) <> 0 -> orphans = []) /\
  (truthy_opt (error raw) = true -> orphans = []).
Proof.
  intros orphans. unfold orphans. rewrite orphan_rule.
  split; [|split; [|split]].
  - intros -> -> Hd. apply Z.ltb_lt in Hd. now rewrite Hd.
  - intros ->. rewrite andb_false_r. now destruct (truthy_opt (error raw)).
  - intros Hn. apply Z.eqb_neq in Hn. rewrite Hn. now destruct (truthy_opt (error raw)).
  - now intros ->.
Qed.

Lemma orphan_issue_rule_witness :
  truthy_opt (error (mkPageResult "http://site.test/b" Examples.homePage 200 2 [] [] None))
    = false /\
  default 0 ((∅ : gmap string Z) !! "http://site.test/b"%string) = 0 /\
  0 < 2 /\
  issuesWhere (fun i => code i = "ORPHAN_PAGE"%string)
    (issues (analyzeOne Examples.linkedWorld ∅ 0
               (mkPageResult "http://site.test/b" Examples.homePage 200 2 [] [] None)))
  = [orphanIssue].
Proof.
  split; [reflexivity|]. split; [reflexivity|]. split; [reflexivity|].
  apply (proj1 (orphan_issue_rule Examples.linkedWorld ∅ 0
                  (mkPageResult "http://site.test/b" Examples.homePage 200 2 [] [] None)));
    reflexivity.
Defined.

(** Every result below the seed has a result that links to it. *)
Lemma crawl_parent (w : World) (startUrl : string) (options : Crawler.CrawlOptions)
    (raw : PageResult) :
  raw ∈ Crawler.crawlSite w startUrl options -> 0 < prDepth raw ->
  prUrl raw ∈ flat_map internalLinks (Crawler.crawlSite w startUrl options).
Proof.
  intros Hin Hd. apply list_elem_of_lookup in Hin. destruct Hin as [j Hj].
  assert (Hp : exists p, p ∈ Crawler.crawlSite w startUrl options /\
                         prUrl raw ∈ internalLinks p).
  { unfold Crawler.crawlSite in *.
    destruct (parseURL w startUrl None) as [u|]; [|discriminate].
    destruct (CrawlerFacts.crawlLoop_depthInv w (URL_hostname u)
                (default Crawler.DEFAULT_maxDepth (Crawler.maxDepth options)) startUrl
                (Z.to_nat (default Crawler.DEFAULT_maxPages (Crawler.maxPages options)))
                [Crawler.mkQueueItem startUrl 0] ∅ []) as (q' & Hres & _).
    { split; [intros j0 r0 H0; discriminate|].
      intros item Hitem. apply list_elem_of_singleton in Hitem. subst item.
      left. split; reflexivity. }
    destruct (Hres j raw Hj) as [[_ Hz]|(i & p & _ & Hi & Hlink & _)]; [lia|].
    exists p. split; [|exact Hlink]. eapply list_elem_of_lookup_2; exact Hi. }
  destruct Hp as (p & Hp & Hlink).
  apply list_elem_of_In, in_flat_map. exists p.
  split; now apply list_elem_of_In.
Qed.

Lemma count_pos (l : list string) (u : string) :
  u ∈ l -> (0 < length (filter (fun link => link = u) l))%nat.
Proof.
  induction 1 as [x l|x y l Hin IH]; rewrite filter_cons.
  - rewrite decide_True by reflexivity. simpl. lia.
  - destruct (decide (y = x)); simpl; lia.
Qed.

(** X12: in the pages analyzed from a crawl no issue ORPHAN_PAGE ever
    occurs: every result below the seed was discovered through a link of
    another result, which the inbound-link map counts. *)
Theorem crawled_pages_are_never_orphans (w : World) (startUrl : string)
    (options : Crawler.CrawlOptions) (page : PageData) (i : Issue) :
  page ∈ analyzeAll w (Crawler.crawlSite w startUrl options) ->
  i ∈ issues page ->
  code i <> "ORPHAN_PAGE"%string.
Proof.
  intros Hpage Hi Hcode. unfold analyzeAll in Hpage.
  apply elem_of_lookup_imap in Hpage. destruct Hpage as (k & raw & -> & Hk).
  set (crawled := Crawler.crawlSite w startUrl options) in *.
  assert (Hraw : raw ∈ crawled) by (eapply list_elem_of_lookup_2; exact Hk).
  assert (Hsome : describe i ∈
            issuesWhere (fun i => code i = "ORPHAN_PAGE"%string)
              (issues (analyzeOne w (buildInboundLinkMap crawled) k raw))).
  { unfold issuesWhere. apply list_elem_of_fmap_2. apply list_elem_of_filter. auto. }
  rewrite orphan_rule in Hsome.
  destruct (truthy_opt (error raw)); [inversion Hsome|].
  destruct (default 0 (buildInboundLinkMap crawled !! prUrl raw) =? 0) eqn:Hzero;
    [|inversion Hsome].
  destruct (0 <? prDepth raw) eqn:Hd; [|inversion Hsome].
  apply Z.ltb_lt in Hd. apply Z.eqb_eq in Hzero.
  rewrite inbound_lookup in Hzero.
  rewrite decide_True in Hzero by (now apply list_elem_of_fmap_2).
  change (inboundCount crawled (prUrl raw) = 0) in Hzero. unfold inboundCount in Hzero.
  pose proof (count_pos _ _ (crawl_parent w startUrl options raw Hraw Hd)) as Hpos.
  fold crawled in Hpos. lia.
Qed.

Lemma crawled_pages_are_never_orphans_witness :
  exists page i,
    page ∈ analyzeAll Examples.linkedWorld
             (Crawler.crawlSite Examples.linkedWorld Examples.seed (Examples.options 5 2)) /\
    i ∈ issues page /\ depth page = 1 /\ code i <> "ORPHAN_PAGE"%string.
Proof.
  assert (H : exists page i,
    analyzeAll Examples.linkedWorld
      (Crawler.crawlSite Examples.linkedWorld Examples.seed (Examples.options 5 2)) !! 1%nat
      = Some page /\ issues page !! 0%nat = Some i /\ depth page = 1).
  { eexists _, _. split; [vm_compute; reflexivity|]. split; reflexivity. }
  destruct H as (page & i & Hp & Hi & Hd). exists page, i.
  assert (Hpage : page ∈ analyzeAll Examples.linkedWorld
             (Crawler.crawlSite Examples.linkedWorld Examples.seed (Examples.options 5 2)))
    by (eapply list_elem_of_lookup_2; exact Hp).
  assert (Hissue : i ∈ issues page) by (eapply list_elem_of_lookup_2; exact Hi).
  split; [exact Hpage|]. split; [exact Hissue|]. split; [exact Hd|].
  exact (crawled_pages_are_never_orphans _ _ _ page i Hpage Hissue).
Defined.

(** *** Identifiers and the shape of the analyzed pages *)

Lemma append_inj_r (s a b : string) : s +:+ a = s +:+ b -> a = b.
Proof. induction s as [|c s IH]; simpl; [auto|]. intros [= H]. auto. Qed.

Lemma NoDup_imap_inj {A B} (f : nat -> A -> B) (l : list A) :
  (forall i j x y, f i x = f j y -> i = j) -> NoDup (imap f l).
Proof.
  revert f. induction l as [|x l IH]; intros f Hf; simpl; constructor.
  - intros Hin. apply elem_of_lookup_imap in Hin.
    destruct Hin as (j & y & Heq & _). apply Hf in Heq. discriminate.
  - apply IH. intros i j a b Hab. apply Hf in Hab. lia.
Qed.

(** X13: the identifiers of the issues of a page are pairwise distinct. *)
Theorem issue_ids_are_distinct (w : World) (inboundMap : gmap string Z) (k : nat)
    (raw : PageResult) :
  NoDup (issueId <$> issues (analyzeOne w inboundMap k raw)).
Proof.
  assert (Hr : NoDup (issueId <$> issues (analyzeReachable w inboundMap k raw))).
  { unfold analyzeReachable. cbn [issues withScores withIssues].
    rewrite fmap_imap. apply NoDup_imap_inj.
    intros i j x y Heq. cbn in Heq.
    apply append_inj_r, append_inj_r in Heq. now apply pretty_nat_inj in Heq. }
  unfold analyzeOne. destruct (error raw) as [[|c s]|]; try exact Hr.
  cbn. apply NoDup_singleton.
Qed.

Lemma analyzeOne_fields (w : World) (inboundMap : gmap string Z) (k : nat) (raw : PageResult) :
  pageId (analyzeOne w inboundMap k raw) = randomUUID w k /\
  url (analyzeOne w inboundMap k raw) = prUrl raw /\
  statusCode (analyzeOne w inboundMap k raw) = prStatusCode raw /\
  depth (analyzeOne w inboundMap k raw) = prDepth raw.
Proof. unfold analyzeOne. destruct (error raw) as [[|c s]|]; repeat split. Qed.

Lemma fmap_analyzeAll {B} (w : World) (crawled : list PageResult)
    (f : PageData -> B) (g : PageResult -> B) :
  (forall m k raw, f (analyzeOne w m k raw) = g raw) ->
  f <$> analyzeAll w crawled = g <$> crawled.
Proof.
  intros H. unfold analyzeAll. rewrite fmap_imap.
  rewrite (imap_ext _ (fun _ => g)); [apply imap_const|].
  intros i x _. apply H.
Qed.


(** *** The store and the audit record *)

Lemma update_ids (audits : list Audit) (id : string) (u : Storage.AuditUpdate) :
  auditId <$> Storage.update audits id u = auditId <$> audits.
Proof.
  induction audits as [|a audits IH]; [reflexivity|]. cbn [Storage.update].
  destruct (String.eqb (auditId a) id); rewrite !fmap_cons; [reflexivity | now rewrite IH].
Qed.

Lemma get_update_ne (audits : list Audit) (id other : string) (u : Storage.AuditUpdate) :
  other <> id -> Storage.get (Storage.update audits id u) other = Storage.get audits other.
Proof.
  intros Hne. unfold Storage.get. induction audits as [|a audits IH]; simpl; [reflexivity|].
  destruct (String.eqb (auditId a) id) eqn:E; simpl.
  - apply String.eqb_eq in E.
    destruct (String.eqb (auditId a) other) eqn:E'; [|reflexivity].
    apply String.eqb_eq in E'. congruence.
  - destruct (String.eqb (auditId a) other); [reflexivity | exact IH].
Qed.

Lemma update_missing (audits : list Audit) (id : string) (u : Storage.AuditUpdate) :
  Storage.get audits id = None -> Storage.update audits id u = audits.
Proof.
  unfold Storage.get. induction audits as [|a audits IH]; simpl; [reflexivity|].
  destruct (String.eqb (auditId a) id); [discriminate|]. intros H. now rewrite IH.
Qed.



(** X16: whatever it does, the orchestrator changes no other audit of the
    store and neither adds nor removes a record. *)
Theorem startAudit_touches_one_audit (w : World) (id other : string) (maxPages : Z)
    (audits db : list Audit) :
  db ∈ startAudit w id maxPages audits ->
  auditId <$> db = auditId <$> audits /\
  (other <> id -> Storage.get db other = Storage.get audits other).
Proof.
  intros Hdb. unfold startAudit in Hdb.
  destruct (Storage.get audits id) as [a|]; [|inversion Hdb].
  assert (Hall : forall u1 u2, db ∈ [Storage.update audits id u1;
                                     Storage.update (Storage.update audits id u1) id u2] ->
    auditId <$> db = auditId <$> audits /\
    (other <> id -> Storage.get db other = Storage.get audits other)).
  { intros u1 u2 H. apply elem_of_cons in H. destruct H as [->|H].
    - split; [apply update_ids | intros Hne; now apply get_update_ne].
    - apply list_elem_of_singleton in H. subst db. split.
      + now rewrite !update_ids.
      + intros Hne. now rewrite !get_update_ne. }
  destruct (length _ =? 0)%nat; [eapply Hall; exact Hdb|].
  destruct (Scoring.calculateAuditScores _) as [sc summary]. eapply Hall; exact Hdb.
Qed.

Lemma startAudit_touches_one_audit_witness :
  exists db,
    db ∈ startAudit Examples.linkedWorld "audit-1" 5
           [Examples.queuedAudit "nonsense";
            mkAudit "audit-2" Examples.seed QUEUED "t" None zeroScores zeroSummary [] None] /\
    (status <$> Storage.get db "audit-1") = Some FAILED /\
    Storage.get db "audit-2"
      = Some (mkAudit "audit-2" Examples.seed QUEUED "t" None zeroScores zeroSummary [] None).
Proof.
  assert (H : exists db,
    startAudit Examples.linkedWorld "audit-1" 5
      [Examples.queuedAudit "nonsense";
       mkAudit "audit-2" Examples.seed QUEUED "t" None zeroScores zeroSummary [] None]
      !! 1%nat = Some db /\
    (status <$> Storage.get db "audit-1") = Some FAILED).
  { eexists. split; reflexivity. }
  destruct H as (db & Hdb & Hst). exists db.
  assert (Hin : db ∈ startAudit Examples.linkedWorld "audit-1" 5
           [Examples.queuedAudit "nonsense";
            mkAudit "audit-2" Examples.seed QUEUED "t" None zeroScores zeroSummary [] None])
    by (eapply list_elem_of_lookup_2; exact Hdb).
  split; [exact Hin|]. split; [exact Hst|].
  now rewrite (proj2 (startAudit_touches_one_audit Examples.linkedWorld "audit-1" "audit-2" 5
                        _ db Hin)) by discriminate.
Defined.

(** *** A seed that cannot be fetched *)

Lemma crawl_of_unreachable_seed (w : World) (startUrl : string)
    (options : Crawler.CrawlOptions) (u : ParsedURL) (message : string) :
  parseURL w startUrl None = Some u ->
  0 < default Crawler.DEFAULT_maxPages (Crawler.maxPages options) ->
  httpGet w startUrl = FetchThrew message ->
  Crawler.crawlSite w startUrl options
  = [mkPageResult startUrl EmptyString 0 0 [] [] (Some message)].
Proof.
  intros Hu Hpos Hget. unfold Crawler.crawlSite. rewrite Hu.
  destruct (Z.to_nat (default Crawler.DEFAULT_maxPages (Crawler.maxPages options)))
    as [|b] eqn:Hb; [lia|].
  rewrite CrawlerFacts.crawlLoop_visit by apply not_elem_of_empty.
  unfold Crawler.visit. cbn [Crawler.qUrl Crawler.qDepth]. rewrite Hget. cbn [fst snd app].
  apply CrawlerFacts.crawlLoop_nil.
Qed.



End AuditProperties.

(** ** More on analysis: what a page's analysis depends on *)

Module AnalysisProperties.
Import JS Analyzers Runner.

Section Page.
Variable w : World.
Variable inboundMap : gmap string Z.
Variable k : nat.
Variable raw : PageResult.

Lemma other_category (cat cat' : ScoreCategory) (url : string) (l : list Issue) :
  Forall (fromAnalyzer cat' url) l -> cat' <> cat ->
  issuesWhere (fun i => category i = cat) l = [].
Proof.
  intros Hall Hne. apply RunnerFacts.issuesWhere_none.
  eapply Forall_impl; [exact Hall|]. intros i (Hc & _). congruence.
Qed.

Lemma own_category (cat : ScoreCategory) (url : string) (l : list Issue) :
  Forall (fromAnalyzer cat url) l ->
  issuesWhere (fun i => category i = cat) l = describe <$> l.
Proof.
  intros Hall. unfold issuesWhere. f_equal.
  induction Hall as [|i l (Hc & _) _ IH]; [reflexivity|].
  rewrite filter_cons, decide_True by assumption. now rewrite IH.
Qed.

(** The orchestrator adds to the issues of the analysis, at most, a
    content issue. *)
Lemma analyzeReachable_category (cat : ScoreCategory) :
  cat <> content ->
  issuesWhere (fun i => category i = cat) (issues (analyzeReachable w inboundMap k raw))
  = issuesWhere (fun i => category i = cat) (aoIssues (analyzePage w raw)).
Proof.
  intros Hne. unfold analyzeReachable. cbn [issues withScores withIssues].
  rewrite RunnerFacts.issuesWhere_imap;
    [| intros; reflexivity | intros; apply RunnerFacts.by_category_describe; reflexivity].
  unfold applyContentGraphIssues. cbn [issues depth url].
  destruct ((default 0 (inboundMap !! prUrl raw) =? 0) && (0 <? prDepth raw));
    [|reflexivity].
  rewrite RunnerFacts.issuesWhere_app.
  rewrite (RunnerFacts.issuesWhere_none _ [_]); [apply app_nil_r|].
  constructor; [|constructor]. cbn. congruence.
Qed.

(** The issues of one category in the analysis of a page with markup. *)
Lemma analyzePage_category (cat : ScoreCategory) :
  truthy (html raw) = true ->
  issuesWhere (fun i => category i = cat) (aoIssues (analyzePage w raw)) =
  match cat with
  | seo => describe <$> snd (analyzeSeo w (html raw) (prUrl raw))
  | performance =>
      if prDepth raw =? 0 then describe <$> snd (analyzePerformance w (prUrl raw)) else []
  | accessibility => describe <$> snd (analyzeAccessibility w (html raw) (prUrl raw))
  | content => describe <$> snd (analyzeContentStructure w raw)
  | uxDesign => describe <$> snd (analyzeDesignUx w (html raw) (prUrl raw))
  end.
Proof.
  intros Ht. unfold analyzePage. rewrite Ht. cbn [negb].
  pose proof (AuditProperties.analyzeSeo_own w (html raw) (prUrl raw)) as Hs.
  pose proof (AuditProperties.analyzeAccessibility_own w (html raw) (prUrl raw)) as Ha.
  pose proof (AuditProperties.analyzeDesignUx_own w (html raw) (prUrl raw)) as Hu.
  pose proof (AuditProperties.analyzeContentStructure_own w raw) as Hc.
  assert (Hp : Forall (fromAnalyzer performance (prUrl raw))
                 (snd (if prDepth raw =? 0 then analyzePerformance w (prUrl raw)
                       else (None, [])))).
  { destruct (prDepth raw =? 0); [apply AuditProperties.analyzePerformance_own|constructor]. }
  assert (Hpe : describe <$> snd (if prDepth raw =? 0 then analyzePerformance w (prUrl raw)
                                  else (None, []))
                = if prDepth raw =? 0 then describe <$> snd (analyzePerformance w (prUrl raw))
                  else []).
  { destruct (prDepth raw =? 0); reflexivity. }
  destruct (if prDepth raw =? 0 then analyzePerformance w (prUrl raw) else (None, []))
    as [pd pi]. cbn [aoIssues snd] in *. rewrite <- Hpe. clear Hpe.
  rewrite !RunnerFacts.issuesWhere_app.
  destruct cat;
    repeat match goal with
    | H : Forall (fromAnalyzer ?c' ?u) ?l
      |- context [issuesWhere (fun i => category i = ?c) ?l] =>
        first [ rewrite (own_category c u l H)
              | rewrite (other_category c c' u l H) by discriminate ]
    end;
    cbn [app]; rewrite ?app_nil_r; reflexivity.
Qed.

End Page.

Lemma penalty_of_descriptions (cat : ScoreCategory) (url : string) (l : list Issue) :
  Forall (fromAnalyzer cat url) l ->
  foldr (fun t n => Scoring.penaltyPoints (snd (fst t)) + n) 0 (describe <$> l)
  = Scoring.categoryPenalty cat l.
Proof.
  intros Hall. rewrite RunnerFacts.categoryPenalty_issuesWhere.
  now rewrite (own_category cat url l Hall).
Qed.

(** X18: a page below the seed is never measured: it has no performance
    snapshot and no performance issue, and its performance score is the base
    80. *)
Theorem pages_below_seed_score_80 (w : World) (inboundMap : gmap string Z) (k : nat)
    (raw : PageResult) :
  truthy_opt (error raw) = false ->
  truthy (html raw) = true ->
  prDepth raw <> 0 ->
  let page := analyzeOne w inboundMap k raw in
  performanceData page = None /\
  issuesWhere (fun i => category i = performance) (issues page) = [] /\
  performanceScore_ (scores page) = 80.
Proof.
  intros He Ht Hd page. unfold page. rewrite RunnerFacts.analyzeOne_reachable by assumption.
  apply Z.eqb_neq in Hd.
  assert (Hdata : performanceData (analyzeReachable w inboundMap k raw) = None).
  { rewrite RunnerFacts.analyzeReachable_performanceData.
    unfold analyzePage. rewrite Ht, Hd. reflexivity. }
  assert (Hnone : issuesWhere (fun i => category i = performance)
                    (issues (analyzeReachable w inboundMap k raw)) = []).
  { rewrite analyzeReachable_category by discriminate.
    rewrite analyzePage_category by assumption. now rewrite Hd. }
  split; [exact Hdata|]. split; [exact Hnone|].
  rewrite RunnerFacts.analyzeReachable_scores.
  unfold Scoring.calculatePageScores. cbn [performanceScore_].
  rewrite ScoringFacts.performance_score_formula, Hdata. cbn [mbind option_bind].
  unfold Scoring.formulaScore, Scoring.categoryBase. rewrite Hdata. cbn [mbind option_bind].
  rewrite RunnerFacts.categoryPenalty_issuesWhere, Hnone. reflexivity.
Qed.

Lemma pages_below_seed_score_80_witness :
  truthy_opt (error (mkPageResult "http://site.test/a" Examples.homePage 200 1 [] [] None))
    = false /\
  truthy Examples.homePage = true /\ 1 <> 0 /\
  performanceScore_
    (scores (analyzeOne Examples.sluggishWorld ∅ 1
               (mkPageResult "http://site.test/a" Examples.homePage 200 1 [] [] None))) = 80.
Proof.
  split; [reflexivity|]. split; [reflexivity|]. split; [discriminate|].
  apply (pages_below_seed_score_80 Examples.sluggishWorld ∅ 1
           (mkPageResult "http://site.test/a" Examples.homePage 200 1 [] [] None));
    [reflexivity | reflexivity | discriminate].
Defined.


Lemma categoryPenalty_pushIf (cat : ScoreCategory) (c : bool) (i : Issue) (l : list Issue) :
  Scoring.categoryPenalty cat l <= Scoring.categoryPenalty cat (pushIf c i l).
Proof.
  unfold pushIf. destruct c; [|lia].
  rewrite ScoreProperties.categoryPenalty_push.
  destruct (bool_decide (category i = cat)); [|lia].
  pose proof (ScoreProperties.penaltyPoints_pos (severity i)). lia.
Qed.

Lemma categoryPenalty_snoc (cat : ScoreCategory) (i : Issue) (l : list Issue) :
  Scoring.categoryPenalty cat l <= Scoring.categoryPenalty cat (l ++ [i]).
Proof. apply (categoryPenalty_pushIf cat true). Qed.

(** The SEO penalty of a page without title and without description. *)
Lemma seo_penalty_untitled (w : World) (html url : string) :
  trim (titleText (dom w html)) = EmptyString ->
  truthy_opt (trim <$> metaDescriptionContent (dom w html)) = false ->
  40 <= Scoring.categoryPenalty seo (snd (analyzeSeo w html url)).
Proof.
  intros Htitle Hmeta. unfold analyzeSeo. cbn [snd]. rewrite Htitle. cbn [truthy negb].
  etrans; [|apply categoryPenalty_pushIf]. etrans; [|apply categoryPenalty_pushIf].
  assert (H2 : 40 <= Scoring.categoryPenalty seo
    (match trim <$> metaDescriptionContent (dom w html) with
     | Some (String _ _ as md) =>
         pushIf (String.length md <? 60)%nat
           (createIssue seo "SHORT_META_DESCRIPTION" minor
              "Meta description is quite short" url)
           ([] ++ [createIssue seo "MISSING_TITLE" critical "Missing <title> tag" url])
     | _ =>
         ([] ++ [createIssue seo "MISSING_TITLE" critical "Missing <title> tag" url]) ++
         [createIssue seo "MISSING_META_DESCRIPTION" major "Missing meta description" url]
     end)).
  { destruct (trim <$> metaDescriptionContent (dom w html)) as [[|c s]|];
      [vm_compute; discriminate | discriminate | vm_compute; discriminate]. }
  destruct (h1Count (dom w html) =? 0).
  - etrans; [exact H2 | apply categoryPenalty_snoc].
  - etrans; [exact H2 | apply categoryPenalty_pushIf].
Qed.

(** X20: a page with markup but without a title and without a meta
    description scores at most 60 for SEO: the critical MISSING_TITLE and
    the major MISSING_META_DESCRIPTION alone take 40 points. *)
Theorem untitled_page_seo_score (w : World) (inboundMap : gmap string Z) (k : nat)
    (raw : PageResult) :
  truthy_opt (error raw) = false ->
  truthy (html raw) = true ->
  trim (titleText (dom w (html raw))) = EmptyString ->
  truthy_opt (trim <$> metaDescriptionContent (dom w (html raw))) = false ->
  seoScore (scores (analyzeOne w inboundMap k raw)) <= 60.
Proof.
  intros He Ht Htitle Hmeta. rewrite RunnerFacts.analyzeOne_reachable by assumption.
  rewrite RunnerFacts.analyzeReachable_scores.
  set (page := analyzeReachable w inboundMap k raw).
  change (seoScore (Scoring.calculatePageScores page))
    with (Scoring.categoryScore seo (Scoring.calculatePageScores page)).
  rewrite ScoreProperties.categoryScore_formula.
  unfold Scoring.formulaScore, Scoring.categoryBase.
  rewrite RunnerFacts.categoryPenalty_issuesWhere.
  unfold page. rewrite analyzeReachable_category by discriminate.
  rewrite analyzePage_category by assumption.
  rewrite (penalty_of_descriptions seo (prUrl raw))
    by apply AuditProperties.analyzeSeo_own.
  pose proof (seo_penalty_untitled w (html raw) (prUrl raw) Htitle Hmeta) as Hpen.
  assert (Hextra : 0 <= Scoring.extraPenalty seo (analyzeReachable w inboundMap k raw)).
  { unfold Scoring.extraPenalty. destruct (seoData _) as [d|]; [|lia].
    destruct (negb (wordCount d =? 0) && (wordCount d <? 120)); lia. }
  unfold Scoring.clampZ. lia.
Qed.

Lemma untitled_page_seo_score_witness :
  truthy_opt (error Examples.linkedSeedResult) = false /\
  truthy (html Examples.linkedSeedResult) = true /\
  trim (titleText (dom Examples.linkedWorld (html Examples.linkedSeedResult))) = EmptyString /\
  truthy_opt (trim <$> metaDescriptionContent
                         (dom Examples.linkedWorld (html Examples.linkedSeedResult))) = false /\
  seoScore (scores (analyzeOne Examples.linkedWorld ∅ 0 Examples.linkedSeedResult)) <= 60.
Proof.
  split; [reflexivity|]. split; [reflexivity|]. split; [reflexivity|]. split; [reflexivity|].
  apply (untitled_page_seo_score Examples.linkedWorld ∅ 0 Examples.linkedSeedResult);
    reflexivity.
Defined.

End AnalysisProperties.

(** ** More on the crawler: the link filter and the crawl's scope *)

Module ScopeProperties.
Import JS Crawler.

Lemma is_space_lower (c : ascii) : is_space (lower_ascii c) = is_space c.
Proof. destruct c as [[] [] [] [] [] [] [] []]; reflexivity. Qed.

Lemma trimStart_lower (s : string) :
  trimStart (toLowerCase s) = toLowerCase (trimStart s).
Proof.
  induction s as [|c s IH]; [reflexivity|].
  cbn [toLowerCase trimStart]. rewrite is_space_lower.
  destruct (is_space c); [exact IH | reflexivity].
Qed.

Lemma trimEnd_lower (s : string) :
  trimEnd (toLowerCase s) = toLowerCase (trimEnd s).
Proof.
  induction s as [|c s IH]; [reflexivity|].
  cbn [toLowerCase trimEnd]. rewrite IH, is_space_lower.
  destruct (trimEnd s); cbn [toLowerCase]; [destruct (is_space c)|]; reflexivity.
Qed.

Lemma trim_lower (s : string) : trim (toLowerCase s) = toLowerCase (trim s).
Proof. unfold trim. now rewrite trimStart_lower, trimEnd_lower. Qed.

Lemma truthy_lower (s : string) : truthy (toLowerCase s) = truthy s.
Proof. destruct s; reflexivity. Qed.

(** X21: the link filter looks at an address only up to the case of its
    (ASCII) letters and up to leading white space: two addresses with the
    same lower-case form are both kept or both dropped, and so are an
    address and the same address behind a white-space character. *)
Theorem link_filter_ignores_case_and_padding :
  (forall a b : string, toLowerCase a = toLowerCase b -> isValidLink a = isValidLink b) /\
  (forall (c : ascii) (a : string),
     is_space c = true -> isValidLink (String c a) = isValidLink a).
Proof.
  split.
  - intros a b Hab. unfold isValidLink.
    rewrite <- (truthy_lower (trim a)), <- (truthy_lower (trim b)).
    rewrite <- !trim_lower, Hab. reflexivity.
  - intros c a Hc. unfold isValidLink, trim. cbn [trimStart]. rewrite Hc. reflexivity.
Qed.

Lemma internalOf_host (w : World) (domain currentUrl html link : string) :
  link ∈ internalOf domain (resolvedAnchors w currentUrl html) ->
  exists p, parseURL w link None = Some p /\ URL_hostname p = domain.
Proof.
  unfold internalOf, resolvedAnchors. intros Hin.
  apply list_elem_of_fmap in Hin. destruct Hin as ([l h] & -> & Hin).
  apply list_elem_of_filter in Hin. destruct Hin as [Hd Hin]. cbn [fst snd] in *.
  apply list_elem_of_omap in Hin. destruct Hin as (href & _ & Hres).
  unfold resolveAnchor in Hres. destruct href as [href|]; [|discriminate].
  cbn [mbind option_bind] in Hres.
  destruct (truthy href && isValidLink href); [|discriminate].
  destruct (parseURL w href (Some currentUrl)) as [u|]; [|discriminate].
  cbn [mbind option_bind] in Hres.
  destruct (parseURL w (URL_href u) None) as [u'|] eqn:Hu'; [|discriminate].
  cbn [mbind option_bind] in Hres. inversion Hres; subst. eauto.
Qed.

Lemma externalOf_host (w : World) (domain currentUrl html link : string) :
  link ∈ externalOf domain (resolvedAnchors w currentUrl html) ->
  exists p, parseURL w link None = Some p /\ URL_hostname p <> domain.
Proof.
  unfold externalOf, resolvedAnchors. intros Hin.
  apply list_elem_of_fmap in Hin. destruct Hin as ([l h] & -> & Hin).
  apply list_elem_of_filter in Hin. destruct Hin as [Hd Hin]. cbn [fst snd] in *.
  apply list_elem_of_omap in Hin. destruct Hin as (href & _ & Hres).
  unfold resolveAnchor in Hres. destruct href as [href|]; [|discriminate].
  cbn [mbind option_bind] in Hres.
  destruct (truthy href && isValidLink href); [|discriminate].
  destruct (parseURL w href (Some currentUrl)) as [u|]; [|discriminate].
  cbn [mbind option_bind] in Hres.
  destruct (parseURL w (URL_href u) None) as [u'|] eqn:Hu'; [|discriminate].
  cbn [mbind option_bind] in Hres. inversion Hres; subst. eauto.
Qed.

(** X22: a crawl never leaves the host of its seed: the address of every
    result parses to the seed's host name, and so does every internal link
    a result records, while every external link parses to another host. *)
Theorem crawl_stays_on_seed_host (w : World) (startUrl : string) (options : CrawlOptions)
    (u : ParsedURL) (r : PageResult) :
  parseURL w startUrl None = Some u ->
  r ∈ crawlSite w startUrl options ->
  (exists p, parseURL w (prUrl r) None = Some p /\ URL_hostname p = URL_hostname u) /\
  (forall link, link ∈ internalLinks r ->
     exists p, parseURL w link None = Some p /\ URL_hostname p = URL_hostname u) /\
  (forall link, link ∈ externalLinks r ->
     exists p, parseURL w link None = Some p /\ URL_hostname p <> URL_hostname u).
Proof.
  intros Hu Hin.
  assert (Hlinks : forall p, p ∈ crawlSite w startUrl options ->
            linksRecorded w (URL_hostname u) p).
  { intros p Hp. unfold crawlSite in Hp. rewrite Hu in Hp.
    pose proof (CrawlerFacts.crawlLoop_linksRecorded w (URL_hostname u)
                  (default DEFAULT_maxDepth (maxDepth options))
                  (Z.to_nat (default DEFAULT_maxPages (maxPages options)))
                  [mkQueueItem startUrl 0] ∅ [] (Forall_nil_2 _)) as Hall.
    rewrite Forall_forall in Hall. exact (Hall p Hp). }
  assert (Hint : forall p link, p ∈ crawlSite w startUrl options ->
            link ∈ internalLinks p ->
            exists q, parseURL w link None = Some q /\ URL_hostname q = URL_hostname u).
  { intros p link Hp Hl. destruct (Hlinks p Hp) as [Hi _]. rewrite Hi in Hl.
    destruct (extracted p); [|inversion Hl]. eapply internalOf_host; exact Hl. }
  split; [|split].
  - pose proof Hin as Hin'. apply list_elem_of_lookup in Hin'. destruct Hin' as [j Hj].
    unfold crawlSite in Hj. rewrite Hu in Hj.
    destruct (CrawlerFacts.crawlLoop_depthInv w (URL_hostname u)
                (default DEFAULT_maxDepth (maxDepth options)) startUrl
                (Z.to_nat (default DEFAULT_maxPages (maxPages options)))
                [mkQueueItem startUrl 0] ∅ []) as (q' & Hres & _).
    { split; [intros j0 r0 H0; discriminate|].
      intros item Hitem. apply list_elem_of_singleton in Hitem. subst item.
      left. split; reflexivity. }
    destruct (Hres j r Hj) as [[Hseed _]|(i & p & _ & Hi & Hlink & _)].
    + rewrite Hseed. eauto.
    + apply (Hint p); [|exact Hlink].
      unfold crawlSite. rewrite Hu. eapply list_elem_of_lookup_2; exact Hi.
  - intros link Hl. exact (Hint r link Hin Hl).
  - intros link Hl. destruct (Hlinks r Hin) as [_ He]. rewrite He in Hl.
    destruct (extracted r); [|inversion Hl]. eapply externalOf_host; exact Hl.
Qed.

Lemma crawl_stays_on_seed_host_witness :
  parseURL Examples.linkedWorld Examples.seed None
    = Some (mkParsedURL Examples.seed "site.test") /\
  Examples.linkedSeedResult ∈
    crawlSite Examples.linkedWorld Examples.seed (Examples.options 5 2) /\
  exists p, parseURL Examples.linkedWorld (prUrl Examples.linkedSeedResult) None = Some p /\
            URL_hostname p = "site.test"%string.
Proof.
  assert (Hin : Examples.linkedSeedResult ∈
                  crawlSite Examples.linkedWorld Examples.seed (Examples.options 5 2)).
  { vm_compute. apply list_elem_of_here. }
  split; [reflexivity|]. split; [exact Hin|].
  exact (proj1 (crawl_stays_on_seed_host Examples.linkedWorld Examples.seed
                  (Examples.options 5 2) (mkParsedURL Examples.seed "site.test")
                  Examples.linkedSeedResult eq_refl Hin)).
Defined.

End ScopeProperties.

(** ** More on the store *)

Module StoreProperties.
Import Storage.

Lemma get_app_fresh (audits : list Audit) (a : Audit) (id : string) :
  get audits id = None -> get (audits ++ [a]) id = get [a] id.
Proof.
  unfold get. induction audits as [|x l IH]; [reflexivity|].
  cbn [List.find app]. destruct (String.eqb (auditId x) id); [discriminate | exact IH].
Qed.

Lemma get_app_other (audits : list Audit) (a : Audit) (id : string) :
  auditId a <> id -> get (audits ++ [a]) id = get audits id.
Proof.
  intros Hne. unfold get. induction audits as [|x l IH].
  - cbn [List.find app]. apply String.eqb_neq in Hne. now rewrite Hne.
  - cbn [List.find app]. destruct (String.eqb (auditId x) id); [reflexivity | exact IH].
Qed.

(** X23: creating an audit under an identifier the store does not hold yet
    makes it retrievable under that identifier, as a queued audit of the
    given address with no pages and zero scores, and changes what no other
    identifier retrieves. *)
Theorem created_audit_is_retrievable (audits : list Audit) (id url createdAt : string) :
  get audits id = None ->
  let newAudit := fst (create id url createdAt audits) in
  let audits' := snd (create id url createdAt audits) in
  get audits' id = Some newAudit /\
  auditId newAudit = id /\ auditUrl newAudit = url /\
  status newAudit = QUEUED /\ pages newAudit = [] /\ auditScores newAudit = zeroScores /\
  (forall other, other <> id -> get audits' other = get audits other).
Proof.
  intros Hfresh. cbn [create fst snd]. split.
  - rewrite get_app_fresh by assumption. unfold get. cbn [List.find auditId].
    now rewrite String.eqb_refl.
  - repeat split. intros other Hne. apply get_app_other. cbn [auditId]. congruence.
Qed.

Lemma created_audit_is_retrievable_witness :
  get [Examples.queuedAudit "http://site.test/"] "id-2" = None /\
  get (snd (create "id-2" "http://other.test/" "now"
              [Examples.queuedAudit "http://site.test/"])) "id-2"
  = Some (fst (create "id-2" "http://other.test/" "now"
                 [Examples.queuedAudit "http://site.test/"])).
Proof.
  split; [reflexivity|].
  exact (proj1 (created_audit_is_retrievable [Examples.queuedAudit "http://site.test/"]
                  "id-2" "http://other.test/" "now" eq_refl)).
Defined.

End StoreProperties.
